(** * Receipt API: a shallow embedding of [main.py] and its properties

    The service issues sequentially numbered receipts.  It is a FastAPI
    application over a MongoDB handle [db]; the handle is either [None]
    (the environment did not configure a database) or a live database with
    two collections, [counters] and [receipt].

    Conventions of the embedding:
    - Python [int] is [Z]; Python [float] is IEEE binary64, the primitive
      [float] of the standard library; [Optional[str]] is [option string];
    - [datetime] is an instant, counted in microseconds since the epoch (UTC);
      the clock reading [datetime.now(timezone.utc)] is an input of the
      handler that takes it;
    - an exception is an [Outcome] that is not a [Return]; handlers live in a
      state-and-exception monad [M] over the value of [db];
    - the [counters] collection is a finite map keyed by [_id] (MongoDB keeps
      [_id] unique); the [receipt] collection is the list of its documents in
      insertion order. *)

From Stdlib Require Import ZArith Floats.
From stdpp Require Import gmap strings list sorting.

#[local] Open Scope Z_scope.

(** ** Exceptions and outcomes *)

Inductive Exception : Type :=
  | HTTPException (status_code : Z) (detail : string)
  | RequestValidationError      (* FastAPI: the request body fails its model *)
  | ValidationError             (* pydantic: a model constructor rejects its input *)
  | OverflowError               (* int too large to convert to float *)
  | DuplicateKeyError           (* pymongo: [_id] already present *)
  | TypeError.                  (* subscripting [None] *)

(** The HTTP status the framework answers with. *)
Definition status_code_of (e : Exception) : Z :=
  match e with
  | HTTPException s _ => s
  | RequestValidationError => 422
  | _ => 500
  end.

Inductive Outcome (A : Type) : Type :=
  | Return (a : A)
  | Raise (e : Exception).
Arguments Return {A} a.
Arguments Raise {A} e.

#[global] Instance Outcome_ret : MRet Outcome := λ A a, Return a.
#[global] Instance Outcome_bind : MBind Outcome := λ A B f m,
  match m with
  | Return a => f a
  | Raise e => Raise e
  end.

(** ** Python numbers *)

Definition datetime : Type := Z.

(** Correctly rounded (to nearest, ties to even) conversion of an integer. *)
Definition Z2float (z : Z) : float :=
  SF2Prim (SpecFloat.binary_normalize prec emax z 0 false).

(** [float(n)] for an [int] [n]: CPython raises [OverflowError] when the
    rounded value does not fit a double. *)
Definition int_to_float (z : Z) : Outcome float :=
  let f := Z2float z in
  if PrimFloat.is_infinity f then Raise OverflowError else Return f.

Inductive PyNum : Type :=
  | PyInt (z : Z)
  | PyFloat (f : float).

(** [float(x)] *)
Definition py_float (x : PyNum) : Outcome float :=
  match x with
  | PyInt z => int_to_float z
  | PyFloat f => Return f
  end.

(** [x * y]: an [int] operand is converted when the other is a [float]. *)
Definition py_mul (x y : PyNum) : Outcome PyNum :=
  match x, y with
  | PyInt a, PyInt b => Return (PyInt (a * b))
  | _, _ => a ← py_float x; b ← py_float y; Return (PyFloat (a * b)%float)
  end.

(** [x + y] *)
Definition py_add (x y : PyNum) : Outcome PyNum :=
  match x, y with
  | PyInt a, PyInt b => Return (PyInt (a + b))
  | _, _ => a ← py_float x; b ← py_float y; Return (PyFloat (a + b)%float)
  end.

(** ** Schemas *)

Module Brand.
Record t : Type := mk {
  name : string;
  phone : option string;
  logo_url : option string
}.
End Brand.

Module ReceiptItem.
Record t : Type := mk {
  name : string;
  quantity : Z;          (* Field(1, ge=1) *)
  price : float          (* Field(..., ge=0) *)
}.

(** The field constraints [ge=1] and [ge=0]. *)
Definition valid (i : t) : bool :=
  (1 <=? quantity i) && (0 <=? price i)%float.
End ReceiptItem.

Module ReceiptCreate.
Record t : Type := mk {
  customer_name : option string;
  items : list ReceiptItem.t;
  notes : option string
}.
End ReceiptCreate.

Module ReceiptOut.
Record t : Type := mk {
  number : Z;
  brand : Brand.t;
  customer_name : option string;
  items : list ReceiptItem.t;
  notes : option string;
  subtotal : float;
  total : float;
  created_at : datetime;
  updated_at : datetime
}.
End ReceiptOut.

(** ** The request body of [POST /api/receipts], before validation

    A JSON object: the three fields of [ReceiptCreate], each possibly
    missing, and whatever other keys the client sent.  The values present
    are taken to have the declared types: a body whose customer name is not
    a string, say, is refused by the model as well, and is not represented
    here. *)

Module Body.
Record item : Type := mk_item {
  name : option string;
  quantity : option Z;
  price : option float
}.
Record t : Type := mk {
  customer_name : option string;
  items : option (list item);
  notes : option string;
  extra : list (string * string)
}.
End Body.

(** The model constructor [ReceiptItem] on a raw item: [name] and [price]
    are required, [quantity] defaults to 1, and the constraints are checked. *)
Definition parse_ReceiptItem (raw : Body.item) : option ReceiptItem.t :=
  n ← Body.name raw;
  p ← Body.price raw;
  let i := ReceiptItem.mk n (default 1 (Body.quantity raw)) p in
  if ReceiptItem.valid i then Some i else None.

(** The model constructor [ReceiptCreate] on a body: [items] defaults to
    the empty list, unknown keys are ignored, and one bad item rejects the
    whole body. *)
Definition parse_ReceiptCreate (body : Body.t) : option ReceiptCreate.t :=
  its ← mapM parse_ReceiptItem (default [] (Body.items body));
  Some (ReceiptCreate.mk (Body.customer_name body) its (Body.notes body)).

(** ** The database

    [main.py] imports [db] from the module [database], which is not among
    the sources read here.  What stands behind [db] follows the store
    contract of the design: append-only insertion, point lookup by number,
    lookup of the greatest number, a bounded listing by descending number,
    and an atomic increment-and-read that creates the counter on first use.
    Each of these is the MongoDB collection method the handler calls.  A
    call that the store does not answer (the connection is lost) raises out
    of the handler; the properties below are about calls it answers. *)

Definition ObjectId : Type := nat.

(** A document of [counters]; its [_id] is the key it is stored under. *)
Record CounterDoc : Type := mk_counter {
  seq : option Z
}.

(** A receipt document: the dictionary built by [create_receipt].  The key
    [_id] is absent until [insert_one] adds it, and absent again after
    [pop("_id", None)].  [model_dump] of the flat models [Brand] and
    [ReceiptItem] gives a dictionary with the same fields, which the same
    record stands for. *)
Module Doc.
Record t : Type := mk {
  _id : option ObjectId;
  number : Z;
  brand : Brand.t;
  customer_name : option string;
  items : list ReceiptItem.t;
  notes : option string;
  subtotal : float;
  total : float;
  created_at : datetime;
  updated_at : datetime
}.
End Doc.

(** Modelled from the spec: the content of the database that the missing
    module [database] connects [db] to; two collections, [receipt] (one
    document per receipt) and [counters] (one document per named counter). *)
Record Database : Type := mk_database {
  counters : gmap string CounterDoc;
  receipt : list Doc.t;
  next_oid : ObjectId          (* the driver's supply of fresh [_id]s *)
}.

Definition empty_database : Database := mk_database ∅ [] 0%nat.

(** The value of the global [db]. *)
Definition State : Type := option Database.

(** ** The handler monad *)

Definition M (A : Type) : Type := State → Outcome A * State.

#[global] Instance M_ret : MRet M := λ A a s, (Return a, s).
#[global] Instance M_bind : MBind M := λ A B f m s,
  match m s with
  | (Return a, s') => f a s'
  | (Raise e, s') => (Raise e, s')
  end.

#[global] Instance M_fmap : FMap M := λ A B f m, a ← m; mret (f a).

Definition raise {A} (e : Exception) : M A := λ s, (Raise e, s).

(** A pure computation that may raise. *)
Definition lift {A} (o : Outcome A) : M A := λ s, (o, s).

(** Reading the global [db]. *)
Definition get_db : M State := λ s, (Return s, s).

(** An operation on a collection of [db]; subscripting [None] raises. *)
Definition with_db {A} (op : Database → Outcome A * Database) : M A := λ s,
  match s with
  | None => (Raise TypeError, None)
  | Some d => let '(o, d') := op d in (o, Some d')
  end.

(** *** Collection methods *)

(** Modelled from the spec: the atomic increment-and-return of the store,
    [db["counters"].find_one_and_update({"_id": id}, {"$inc": {"seq": 1}},
    upsert=True, return_document=True)]; one step that adds 1 to [seq] (a
    missing field counts as 0, a missing document is created) and returns
    the document as it is afterwards. *)
Definition counters_find_one_and_update_inc (id : string) : M (option CounterDoc) :=
  with_db (λ d,
    let doc :=
      match counters d !! id with
      | Some c => mk_counter (Some (default 0 (seq c) + 1))
      | None => mk_counter (Some 1)
      end in
    (Return (Some doc), mk_database (<[id := doc]> (counters d)) (receipt d) (next_oid d))).

(** Modelled from the spec: explicit creation of the counter,
    [db["counters"].insert_one({"_id": id, "seq": v})]; a key already
    present is refused. *)
Definition counters_insert_one (id : string) (v : Z) : M unit :=
  with_db (λ d,
    match counters d !! id with
    | Some _ => (Raise DuplicateKeyError, d)
    | None =>
        (Return (), mk_database (<[id := mk_counter (Some v)]> (counters d)) (receipt d) (next_oid d))
    end).

(** Modelled from the spec: [db["counters"].update_one({"_id": id},
    {"$set": {"seq": v}})]; without upsert, a missing document stays
    missing. *)
Definition counters_update_one_set (id : string) (v : Z) : M unit :=
  with_db (λ d,
    (Return (), mk_database (alter (λ _, mk_counter (Some v)) id (counters d)) (receipt d) (next_oid d))).

(** A date as the collection keeps it: BSON counts whole milliseconds
    since the epoch, so the microseconds below the millisecond are cut off. *)
Definition bson_datetime (t : datetime) : datetime := 1000 * (t / 1000).

(** A document as the collection keeps it. *)
Definition bson_doc (doc : Doc.t) : Doc.t :=
  Doc.mk (Doc._id doc) (Doc.number doc) (Doc.brand doc) (Doc.customer_name doc)
    (Doc.items doc) (Doc.notes doc) (Doc.subtotal doc) (Doc.total doc)
    (bson_datetime (Doc.created_at doc)) (bson_datetime (Doc.updated_at doc)).

(** Modelled from the spec: the insert of the store,
    [db["receipt"].insert_one(doc)]; the driver gives the dictionary a fresh
    [_id] when it has none (mutating it in place: the updated dictionary,
    with its dates as they were, is returned here) and the document is
    appended in its stored form.  The number is not checked for uniqueness,
    and the integers are taken to fit the eight bytes the store gives them. *)
Definition receipt_insert_one (doc : Doc.t) : M Doc.t :=
  with_db (λ d,
    let doc' :=
      match Doc._id doc with
      | Some _ => doc
      | None =>
          Doc.mk (Some (next_oid d)) (Doc.number doc) (Doc.brand doc)
            (Doc.customer_name doc) (Doc.items doc) (Doc.notes doc)
            (Doc.subtotal doc) (Doc.total doc) (Doc.created_at doc) (Doc.updated_at doc)
      end in
    (Return doc', mk_database (counters d) (receipt d ++ [bson_doc doc']) (S (next_oid d)))).

(** The order of [sort("number", -1)]; documents with equal numbers come
    in no promised order. *)
Definition number_desc (a b : Doc.t) : Prop := Doc.number b ≤ Doc.number a.

#[global] Instance number_desc_dec : RelDecision number_desc :=
  λ a b, decide (Doc.number b ≤ Doc.number a).

(** One such order; where numbers repeat, no property below depends on
    which one it is. *)
Definition sort_number_desc (l : list Doc.t) : list Doc.t := merge_sort number_desc l.

(** [cursor.limit(n)]: 0 is no limit, and a negative [n] stands for [-n]. *)
Definition cursor_limit {A} (n : Z) (l : list A) : list A :=
  if decide (n = 0) then l else take (Z.to_nat (Z.abs n)) l.

(** Modelled from the spec: the lookup of the latest receipt,
    [db["receipt"].find_one(sort=[("number", -1)])]. *)
Definition receipt_find_one_sorted : M (option Doc.t) :=
  with_db (λ d, (Return (head (sort_number_desc (receipt d))), d)).

(** Modelled from the spec: the point lookup,
    [db["receipt"].find_one({"number": n})]; the first match in natural
    order. *)
Definition receipt_find_one (n : Z) : M (option Doc.t) :=
  with_db (λ d, (Return (head (filter (λ x, Doc.number x = n) (receipt d))), d)).

(** Modelled from the spec: the bounded listing,
    [db["receipt"].find().sort("number", -1).limit(n)], read to the end. *)
Definition receipt_find_sort_limit (n : Z) : M (list Doc.t) :=
  with_db (λ d, (Return (cursor_limit n (sort_number_desc (receipt d))), d)).

(** [doc.pop("_id", None)] *)
Definition pop_id (doc : Doc.t) : Doc.t :=
  Doc.mk None (Doc.number doc) (Doc.brand doc) (Doc.customer_name doc)
    (Doc.items doc) (Doc.notes doc) (Doc.subtotal doc) (Doc.total doc)
    (Doc.created_at doc) (Doc.updated_at doc).

(** The model constructor [ReceiptOut] on the keys of a document: a key
    that is not a field ([_id]) is ignored, and every item is validated as a
    [ReceiptItem]. *)
Definition ReceiptOut_of_doc (doc : Doc.t) : Outcome ReceiptOut.t :=
  if forallb ReceiptItem.valid (Doc.items doc) then
    Return (ReceiptOut.mk (Doc.number doc) (Doc.brand doc) (Doc.customer_name doc)
              (Doc.items doc) (Doc.notes doc) (Doc.subtotal doc) (Doc.total doc)
              (Doc.created_at doc) (Doc.updated_at doc))
  else Raise ValidationError.

(** ** [main.py] *)

Definition BRAND : Brand.t :=
  Brand.mk "VELLIXAO" (Some "085706400133") (Some "https://files.catbox.moe/a9u0pd.png").

Definition COUNTER_ID : string := "receipt_number".

Definition not_configured : Exception := HTTPException 500 "Database not configured".

Definition _get_next_receipt_number : M Z :=
  db ← get_db;
  match db with
  | None => raise not_configured
  | Some _ =>
      doc ← counters_find_one_and_update_inc COUNTER_ID;
      match doc with
      | None =>
          (* extremely unlikely, but ensure fallback *)
          counters_insert_one COUNTER_ID 1;; mret 1
      | Some doc =>
          match seq doc with
          | None =>
              (* Initialize to 1 on first creation *)
              counters_update_one_set COUNTER_ID 1;; mret 1
          | Some v => mret v
          end
      end
  end.

(** [sum(gen)], from [start], adding left to right; the generator yields
    its values one at a time and any of them may raise. *)
Fixpoint py_sum (gen : list (Outcome PyNum)) (start : PyNum) : Outcome PyNum :=
  match gen with
  | [] => Return start
  | x :: rest => v ← x; acc ← py_add start v; py_sum rest acc
  end.

Definition _compute_totals (items : list ReceiptItem.t) : Outcome float :=
  s ← py_sum
        ((λ i, py_mul (PyInt (ReceiptItem.quantity i)) (PyFloat (ReceiptItem.price i))) <$> items)
        (PyInt 0);
  py_float s.

(** [l or []] *)
Definition or_empty {A} (l : list A) : list A :=
  match l with
  | [] => []
  | _ => l
  end.

Definition create_receipt (now : datetime) (payload : ReceiptCreate.t) : M ReceiptOut.t :=
  db ← get_db;
  match db with
  | None => raise not_configured
  | Some _ =>
      number ← _get_next_receipt_number;
      let items := or_empty (ReceiptCreate.items payload) in
      subtotal ← lift (_compute_totals items);
      let total := subtotal in
      let doc :=
        Doc.mk None number BRAND (ReceiptCreate.customer_name payload) items
          (ReceiptCreate.notes payload) subtotal total now now in
      doc ← receipt_insert_one doc;
      lift (ReceiptOut_of_doc doc)
  end.

Definition get_latest_receipt : M ReceiptOut.t :=
  db ← get_db;
  match db with
  | None => raise not_configured
  | Some _ =>
      doc ← receipt_find_one_sorted;
      match doc with
      | None => raise (HTTPException 404 "No receipts found")
      | Some doc => lift (ReceiptOut_of_doc (pop_id doc))
      end
  end.

Definition get_receipt_by_number (number : Z) : M ReceiptOut.t :=
  db ← get_db;
  match db with
  | None => raise not_configured
  | Some _ =>
      doc ← receipt_find_one number;
      match doc with
      | None => raise (HTTPException 404 "Receipt not found")
      | Some doc => lift (ReceiptOut_of_doc (pop_id doc))
      end
  end.

Definition list_receipts (limit : Z) : M (list ReceiptOut.t) :=
  db ← get_db;
  match db with
  | None => raise not_configured
  | Some _ =>
      cursor ← receipt_find_sort_limit limit;
      lift (mapM (λ d, ReceiptOut_of_doc (pop_id d)) cursor)
  end.

(** ** The routes

    FastAPI builds the [ReceiptCreate] payload from the request body before
    it calls the handler, and answers 422 when the body does not validate. *)

Definition post_api_receipts (now : datetime) (body : Body.t) : M ReceiptOut.t :=
  match parse_ReceiptCreate body with
  | None => raise RequestValidationError
  | Some payload => create_receipt now payload
  end.

Inductive Request : Type :=
  | POST_receipts (now : datetime) (body : Body.t)
  | GET_receipts_latest
  | GET_receipts_number (number : Z)
  | GET_receipts (limit : option Z).    (* the query parameter, when given *)

Inductive Response : Type :=
  | One (r : ReceiptOut.t)
  | Many (l : list ReceiptOut.t).

Definition serve (rq : Request) : M Response :=
  match rq with
  | POST_receipts now body => One <$> post_api_receipts now body
  | GET_receipts_latest => One <$> get_latest_receipt
  | GET_receipts_number n => One <$> get_receipt_by_number n
  | GET_receipts limit => Many <$> list_receipts (default 20 limit)
  end.

(** The requests of a list served one after the other; an exception ends a
    request, not the process. *)
Fixpoint serve_all (rqs : list Request) (s : State) : list (Outcome Response) * State :=
  match rqs with
  | [] => ([], s)
  | rq :: rest =>
      let '(o, s') := serve rq s in
      let '(os, s'') := serve_all rest s' in
      (o :: os, s'')
  end.

(** [n] successive calls of a handler. *)
Fixpoint call_n {A} (m : M A) (n : nat) (s : State) : list (Outcome A) * State :=
  match n with
  | O => ([], s)
  | S k =>
      let '(o, s') := m s in
      let '(os, s'') := call_n m k s' in
      (o :: os, s'')
  end.

(** ** The diagnostic route [GET /test]

    Python strings are sequences of code points: the messages of this route
    hold characters outside ASCII and are sliced by position. *)

Definition str : Type := list Z.

(** An ASCII literal. *)
Definition lit (s : string) : str :=
  (λ c, Z.of_N (Ascii.N_of_ascii c)) <$> String.list_ascii_of_string s.

Definition CHECK_MARK : str := [0x2705].            (* U+2705 *)
Definition CROSS_MARK : str := [0x274C].            (* U+274C *)
Definition WARNING_SIGN : str := [0x26A0; 0xFE0F].  (* U+26A0 U+FE0F *)

(** The dictionary [response]. *)
Module Diagnostics.
Record t : Type := mk {
  backend : str;
  database : str;
  database_url : option str;
  database_name : option str;
  connection_status : str;
  collections : list str
}.

Definition set_database (v : str) (r : t) : t :=
  mk (backend r) v (database_url r) (database_name r) (connection_status r) (collections r).
Definition set_database_url (v : str) (r : t) : t :=
  mk (backend r) (database r) (Some v) (database_name r) (connection_status r) (collections r).
Definition set_database_name (v : str) (r : t) : t :=
  mk (backend r) (database r) (database_url r) (Some v) (connection_status r) (collections r).
Definition set_connection_status (v : str) (r : t) : t :=
  mk (backend r) (database r) (database_url r) (database_name r) v (collections r).
Definition set_collections (v : list str) (r : t) : t :=
  mk (backend r) (database r) (database_url r) (database_name r) (connection_status r) v.
End Diagnostics.

(** What [db.list_collection_names()] does when it is called: the names,
    or an exception [e] with [str(e)] the message. *)
Inductive Listing : Type :=
  | Listed (names : list str)
  | ListingError (message : str).

(** A block of statements over [response]: it runs to its end ([None]) or
    raises an exception with a message; what it assigned before stays. *)
Definition Block : Type := Diagnostics.t → option str * Diagnostics.t.

Definition assign (f : Diagnostics.t → Diagnostics.t) : Block := λ r, (None, f r).

Definition then_ (a b : Block) : Block := λ r,
  match a r with
  | (None, r') => b r'
  | (Some e, r') => (Some e, r')
  end.

(** [try: body except Exception as e: handler] *)
Definition try_except (body : Block) (handler : str → Block) : Block := λ r,
  match body r with
  | (None, r') => (None, r')
  | (Some e, r') => handler e r'
  end.

(** [x = db.list_collection_names()], then the rest of the block. *)
Definition list_collection_names (listing : Listing) (rest : list str → Block) : Block :=
  match listing with
  | Listed names => rest names
  | ListingError e => λ r, (Some e, r)
  end.

(** [os.getenv(name)], as a condition: set and not empty. *)
Definition getenv_truthy (environ : gmap string str) (name : string) : bool :=
  match environ !! name with
  | Some (_ :: _) => true
  | _ => false
  end.

Definition set_or_not (b : bool) : str :=
  if b then CHECK_MARK ++ lit " Set" else CROSS_MARK ++ lit " Not Set".

Definition test_database (environ : gmap string str) (listing : Listing) (db : State)
    : Diagnostics.t :=
  let response :=
    Diagnostics.mk (CHECK_MARK ++ lit " Running") (CROSS_MARK ++ lit " Not Available")
      None None (lit "Not Connected") [] in
  let block :=
    try_except
      (match db with
       | Some _ =>
           then_ (assign (Diagnostics.set_database (CHECK_MARK ++ lit " Available")))
          (then_ (assign (Diagnostics.set_database_url
                            (set_or_not (getenv_truthy environ "DATABASE_URL"))))
          (then_ (assign (Diagnostics.set_database_name
                            (set_or_not (getenv_truthy environ "DATABASE_NAME"))))
             (try_except
                (list_collection_names listing (λ collections,
                   then_ (assign (Diagnostics.set_collections (take 10 collections)))
                  (then_ (assign (Diagnostics.set_database
                                    (CHECK_MARK ++ lit " Connected & Working")))
                         (assign (Diagnostics.set_connection_status (lit "Connected"))))))
                (λ e, assign (Diagnostics.set_database
                                (WARNING_SIGN ++ lit "  Connected but Error: " ++ take 50 e))))))
       | None =>
           assign (Diagnostics.set_database
                     (WARNING_SIGN ++ lit "  Available but not initialized"))
       end)
      (λ e, assign (Diagnostics.set_database (CROSS_MARK ++ lit " Error: " ++ take 50 e))) in
  (block response).2.

(** * Vocabulary of the statements *)

Ltac unfold_M :=
  unfold mbind, M_bind, mret, M_ret, get_db, raise, lift, with_db in *.

(** ** The counter *)

(** The value the next allocation yields, and the database it leaves. *)
Definition next_seq (d : Database) : Z :=
  match counters d !! COUNTER_ID with
  | Some c => default 0 (seq c) + 1
  | None => 1
  end.

Definition bump (d : Database) : Database :=
  mk_database (<[COUNTER_ID := mk_counter (Some (next_seq d))]> (counters d))
    (receipt d) (next_oid d).

(** The persisted counter value, when there is one. *)
Definition persisted_seq (s : State) : option Z :=
  d ← s; c ← counters d !! COUNTER_ID; seq c.

(** "Does not decrease", on counter values that may be absent: an absent
    value may appear, a present one may only grow. *)
Definition seq_le (a b : option Z) : Prop :=
  match a, b with
  | None, _ => True
  | Some x, Some y => x ≤ y
  | Some _, None => False
  end.

(** ** Documents *)

(** The nine fields of a document, as a receipt. *)
Definition to_out (doc : Doc.t) : ReceiptOut.t :=
  ReceiptOut.mk (Doc.number doc) (Doc.brand doc) (Doc.customer_name doc)
    (Doc.items doc) (Doc.notes doc) (Doc.subtotal doc) (Doc.total doc)
    (Doc.created_at doc) (Doc.updated_at doc).

(** Every item of the document meets the constraints of [ReceiptItem]. *)
Definition Doc_valid (doc : Doc.t) : Prop :=
  forallb ReceiptItem.valid (Doc.items doc) = true.

(** The dictionary [create_receipt] builds in database [d], once
    [insert_one] has given it its [_id]; the response is made from it. *)
Definition new_doc (d : Database) (now : datetime) (payload : ReceiptCreate.t)
    (subtotal : float) : Doc.t :=
  Doc.mk (Some (next_oid d)) (next_seq d) BRAND (ReceiptCreate.customer_name payload)
    (ReceiptCreate.items payload) (ReceiptCreate.notes payload) subtotal subtotal now now.

(** The document [create_receipt] persists: the same, in stored form. *)
Definition stored_doc (d : Database) (now : datetime) (payload : ReceiptCreate.t)
    (subtotal : float) : Doc.t :=
  bson_doc (new_doc d now payload subtotal).

(** A receipt as it reads back from the store: the same in every field
    but the two dates, which are cut down to whole milliseconds. *)
Definition as_stored (r : ReceiptOut.t) : ReceiptOut.t :=
  ReceiptOut.mk (ReceiptOut.number r) (ReceiptOut.brand r) (ReceiptOut.customer_name r)
    (ReceiptOut.items r) (ReceiptOut.notes r) (ReceiptOut.subtotal r) (ReceiptOut.total r)
    (bson_datetime (ReceiptOut.created_at r)) (bson_datetime (ReceiptOut.updated_at r)).

(** The database after the allocation and the insertion of [doc]. *)
Definition inserted (d : Database) (doc : Doc.t) : Database :=
  mk_database (counters (bump d)) (receipt d ++ [doc]) (S (next_oid d)).

(** ** Totals *)

(** Quantity times unit price, in binary64. *)
Definition line_total (i : ReceiptItem.t) : float :=
  (Z2float (ReceiptItem.quantity i) * ReceiptItem.price i)%float.

(** The sum of the line totals, added in order to [acc]. *)
Definition sum_line_totals_from (acc : float) (items : list ReceiptItem.t) : float :=
  fold_left (λ a i, (a + line_total i)%float) items acc.

Definition sum_line_totals (items : list ReceiptItem.t) : float :=
  sum_line_totals_from 0%float items.

(** The quantity fits a double. *)
Definition convertible (i : ReceiptItem.t) : Prop :=
  PrimFloat.is_infinity (Z2float (ReceiptItem.quantity i)) = false.

(** What the generator of [_compute_totals] yields for an item. *)
Definition line (i : ReceiptItem.t) : Outcome PyNum :=
  py_mul (PyInt (ReceiptItem.quantity i)) (PyFloat (ReceiptItem.price i)).

(** ** Orders, bad input, and the invariant of the store *)

(** Strictly descending numbers. *)
Definition number_gt (a b : Doc.t) : Prop := Doc.number b < Doc.number a.

(** A raw item that breaks a constraint: quantity below 1 or price below 0. *)
Definition bad_item (raw : Body.item) : Prop :=
  (∃ q, Body.quantity raw = Some q ∧ q < 1)
  ∨ (∃ p, Body.price raw = Some p ∧ (p <? 0)%float = true).

(** What serving one request can do to the database: nothing, an
    allocation whose receipt is never inserted, or an allocation followed by
    the insertion of a valid document under the allocated number. *)
Inductive db_step (d : Database) : Database → Prop :=
  | step_read : db_step d d
  | step_alloc : db_step d (bump d)
  | step_insert doc :
      Doc.number doc = next_seq d → Doc_valid doc → db_step d (inserted d doc).

(** The invariant the service keeps, from the empty database on. *)
Record consistent (d : Database) : Prop := mk_consistent {
  (** every persisted number was issued by the counter *)
  numbers_issued : Forall (λ doc, Doc.number doc < next_seq d) (receipt d);
  (** no number is persisted twice *)
  numbers_distinct : NoDup (Doc.number <$> receipt d);
  (** every persisted document reads back as a receipt *)
  docs_valid : Forall Doc_valid (receipt d)
}.

(** A database the service built from nothing. *)
Definition reachable (d : Database) : Prop :=
  ∃ rqs, (serve_all rqs (Some empty_database)).2 = Some d.

(** ** Sample data *)

Definition demo_items : list ReceiptItem.t :=
  [ReceiptItem.mk "B" 1 5.5%float; ReceiptItem.mk "C" 3 2%float].

Definition demo_payload : ReceiptCreate.t := ReceiptCreate.mk None demo_items None.

Definition zero_quantity : Body.item := Body.mk_item (Some "A") (Some 0) (Some 10%float).
Definition negative_price : Body.item := Body.mk_item (Some "A") None (Some (-1)%float).

(** A store with three receipts, built by the service itself. *)
Definition demo_body (items : list Body.item) : Body.t := Body.mk None (Some items) None [].

Definition demo_requests : list Request :=
  [POST_receipts 5 (demo_body [Body.mk_item (Some "A") (Some 2) (Some 10%float)]);
   POST_receipts 6 (demo_body []);
   POST_receipts 7 (demo_body [Body.mk_item (Some "B") None (Some 5.5%float);
                               Body.mk_item (Some "C") (Some 3) (Some 2%float)])].

Definition demo_db : Database :=
  default empty_database (serve_all demo_requests (Some empty_database)).2.

Definition demo_body_with_brand : Body.t :=
  Body.mk (Some "Ann") (Some [Body.mk_item (Some "A") (Some 2) (Some 10%float)]) None
    [("brand", "ACME")].

(** A payload with a quantity that no double holds. *)
Definition huge_payload : ReceiptCreate.t :=
  ReceiptCreate.mk None [ReceiptItem.mk "A" 2 1%float; ReceiptItem.mk "B" (10 ^ 400) 1%float] None.

(** ** Vocabulary of the further properties *)

(** The counter value on record, 0 when there is none yet. *)
Definition stored_seq (d : Database) : Z := default 0 (persisted_seq (Some d)).

(** The routes that only read. *)
Definition is_read (rq : Request) : Prop :=
  match rq with
  | POST_receipts _ _ => False
  | _ => True
  end.

(** ** Requests that overlap

    The handlers are plain functions, which the server runs on several
    workers: between two calls to the store another request may run.  A
    creation is then two steps, the allocation and, with the number it was
    given, the rest of [create_receipt]. *)

(** [create_receipt] from the line after the allocation on. *)
Definition create_receipt_from (number : Z) (now : datetime) (payload : ReceiptCreate.t)
    : M ReceiptOut.t :=
  let items := or_empty (ReceiptCreate.items payload) in
  subtotal ← lift (_compute_totals items);
  let total := subtotal in
  let doc :=
    Doc.mk None number BRAND (ReceiptCreate.customer_name payload) items
      (ReceiptCreate.notes payload) subtotal total now now in
  doc ← receipt_insert_one doc;
  lift (ReceiptOut_of_doc doc).

(** The database, with the numbers held by the creations that have
    allocated and not finished yet.  A step is an allocation by a creation
    whose body was accepted, the rest of such a creation, or a whole request
    served with nothing in between. *)
Inductive system_step : Database * list Z → Database * list Z → Prop :=
  | step_allocate d d' n held :
      _get_next_receipt_number (Some d) = (Return n, Some d') →
      system_step (d, held) (d', n :: held)
  | step_finish d d' n now body payload o held1 held2 :
      parse_ReceiptCreate body = Some payload →
      create_receipt_from n now payload (Some d) = (o, Some d') →
      system_step (d, held1 ++ n :: held2) (d', held1 ++ held2)
  | step_serve d d' rq o held :
      serve rq (Some d) = (o, Some d') →
      system_step (d, held) (d', held).

(** What the service can build from the empty database, overlaps included. *)
Definition system_reachable (st : Database * list Z) : Prop :=
  rtc system_step (empty_database, []) st.

(** The numbers in use: stored, or held by a running creation. *)
Definition numbers_in_use (st : Database * list Z) : list Z :=
  (Doc.number <$> receipt st.1) ++ st.2.

(** What every step keeps. *)
Record system_inv (st : Database * list Z) : Prop := mk_system_inv {
  inv_started : 1 ≤ next_seq st.1;
  inv_distinct : NoDup (numbers_in_use st);
  inv_range : Forall (λ n, 1 ≤ n < next_seq st.1) (numbers_in_use st);
  inv_valid : Forall Doc_valid (receipt st.1)
}.

(** * Properties *)

(** ** Running the monad *)

Lemma bind_run {A B} (m : M A) (f : A → M B) (s : State) :
  (m ≫= f) s =
  match m s with
  | (Return a, s') => f a s'
  | (Raise e, s') => (Raise e, s')
  end.
Proof. reflexivity. Qed.

Lemma fmap_run {A B} (g : A → B) (m : M A) (s : State) :
  (g <$> m) s =
  match m s with
  | (Return a, s') => (Return (g a), s')
  | (Raise e, s') => (Raise e, s')
  end.
Proof. unfold fmap, M_fmap. rewrite bind_run. destruct (m s) as [[a|e] s']; reflexivity. Qed.

(** ** The sequence allocator *)

Lemma seq_le_refl a : seq_le a a.
Proof. destruct a; simpl; [lia | exact I]. Qed.

Lemma seq_le_trans a b c : seq_le a b → seq_le b c → seq_le a c.
Proof. destruct a, b, c; simpl; try tauto; lia. Qed.

Lemma get_next_receipt_number_eq d :
  _get_next_receipt_number (Some d) = (Return (next_seq d), Some (bump d)).
Proof.
  unfold _get_next_receipt_number, bump, next_seq, counters_find_one_and_update_inc.
  unfold_M; cbn.
  destruct (counters d !! COUNTER_ID) as [c|]; reflexivity.
Qed.

Lemma get_next_receipt_number_None :
  _get_next_receipt_number None = (Raise not_configured, None).
Proof. reflexivity. Qed.

Lemma persisted_seq_bump d : persisted_seq (Some (bump d)) = Some (next_seq d).
Proof. unfold persisted_seq, bump; cbn. by rewrite lookup_insert_eq. Qed.

Lemma next_seq_bump d : next_seq (bump d) = next_seq d + 1.
Proof. unfold next_seq at 1, bump; cbn. by rewrite lookup_insert_eq. Qed.

Lemma seq_le_bump d : seq_le (persisted_seq (Some d)) (persisted_seq (Some (bump d))).
Proof.
  rewrite persisted_seq_bump. unfold persisted_seq, next_seq; cbn.
  destruct (counters d !! COUNTER_ID) as [[[v|]]|]; cbn; try exact I. lia.
Qed.

Lemma receipt_bump d : receipt (bump d) = receipt d.
Proof. reflexivity. Qed.

Lemma get_next_receipt_number_seq_le s :
  seq_le (persisted_seq s) (persisted_seq (_get_next_receipt_number s).2).
Proof.
  destruct s as [d|].
  - rewrite get_next_receipt_number_eq. apply seq_le_bump.
  - exact I.
Qed.

(** [n] allocations in a row count up from [next_seq]. *)
Lemma call_n_get_next_receipt_number n : ∀ d,
  (call_n _get_next_receipt_number n (Some d)).1 =
  (λ k, Return (next_seq d + Z.of_nat k)) <$> List.seq 0 n.
Proof.
  induction n as [|n IH]; intros d; [reflexivity|].
  cbn [call_n]. rewrite get_next_receipt_number_eq.
  specialize (IH (bump d)).
  destruct (call_n _get_next_receipt_number n (Some (bump d))) as [os s''].
  cbn in *. rewrite IH, next_seq_bump, Z.add_0_r. f_equal.
  rewrite <- fmap_S_seq, <- list_fmap_compose.
  apply list_fmap_ext. intros _ k _. cbn. f_equal. lia.
Qed.

Lemma call_n_seq_le {A} (m : M A) :
  (∀ s, seq_le (persisted_seq s) (persisted_seq (m s).2)) →
  ∀ n s, seq_le (persisted_seq s) (persisted_seq (call_n m n s).2).
Proof.
  intros Hm. induction n as [|n IH]; intros s; [apply seq_le_refl|].
  cbn [call_n]. specialize (Hm s). destruct (m s) as [o s'].
  specialize (IH s'). destruct (call_n m n s') as [os s''].
  cbn in *. eapply seq_le_trans; eassumption.
Qed.

(** ** Documents and receipts *)

Lemma ReceiptOut_of_doc_valid doc :
  Doc_valid doc → ReceiptOut_of_doc doc = Return (to_out doc).
Proof. unfold Doc_valid, ReceiptOut_of_doc. intros ->. reflexivity. Qed.

Lemma ReceiptOut_of_doc_Return doc r :
  ReceiptOut_of_doc doc = Return r → Doc_valid doc ∧ r = to_out doc.
Proof.
  unfold Doc_valid, ReceiptOut_of_doc.
  destruct (forallb ReceiptItem.valid (Doc.items doc)); [|discriminate].
  intros [= <-]. split; reflexivity.
Qed.

Lemma ReceiptOut_of_doc_pop_id doc :
  ReceiptOut_of_doc (pop_id doc) = ReceiptOut_of_doc doc.
Proof. reflexivity. Qed.

Lemma or_empty_id {A} (l : list A) : or_empty l = l.
Proof. destruct l; reflexivity. Qed.

(** ** [create_receipt], step by step *)

Lemma create_receipt_eq now payload d :
  create_receipt now payload (Some d) =
  match _compute_totals (ReceiptCreate.items payload) with
  | Raise e => (Raise e, Some (bump d))
  | Return subtotal =>
      (ReceiptOut_of_doc (new_doc d now payload subtotal),
       Some (inserted d (stored_doc d now payload subtotal)))
  end.
Proof.
  unfold create_receipt. rewrite bind_run. cbn [get_db].
  rewrite bind_run, get_next_receipt_number_eq, or_empty_id.
  rewrite bind_run. unfold lift at 1.
  destruct (_compute_totals (ReceiptCreate.items payload)) as [subtotal|e]; [|reflexivity].
  rewrite bind_run. reflexivity.
Qed.

Lemma create_receipt_None now payload :
  create_receipt now payload None = (Raise not_configured, None).
Proof. reflexivity. Qed.

(** What a successful [create_receipt] did. *)
Lemma create_receipt_Return now payload s r s' :
  create_receipt now payload s = (Return r, s') →
  ∃ d subtotal,
    s = Some d
    ∧ _compute_totals (ReceiptCreate.items payload) = Return subtotal
    ∧ Doc_valid (new_doc d now payload subtotal)
    ∧ r = to_out (new_doc d now payload subtotal)
    ∧ s' = Some (inserted d (stored_doc d now payload subtotal)).
Proof.
  destruct s as [d|]; [|rewrite create_receipt_None; discriminate].
  rewrite create_receipt_eq.
  destruct (_compute_totals (ReceiptCreate.items payload)) as [subtotal|e]; [|discriminate].
  cbn zeta. intros [= Hr <-]. apply ReceiptOut_of_doc_Return in Hr as [Hv ->].
  exists d, subtotal. auto.
Qed.

(** ** Totals *)

Lemma line_Return i v : line i = Return v → v = PyFloat (line_total i) ∧ convertible i.
Proof.
  unfold line, py_mul, py_float, int_to_float, line_total, convertible.
  destruct (PrimFloat.is_infinity _); cbn [mbind Outcome_bind]; [discriminate|].
  intros [= <-]. split; reflexivity.
Qed.

Lemma line_convertible i : convertible i → line i = Return (PyFloat (line_total i)).
Proof.
  unfold line, py_mul, py_float, int_to_float, line_total, convertible.
  intros ->. reflexivity.
Qed.

Lemma py_sum_cons x rest start :
  py_sum (x :: rest) start = v ← x; acc ← py_add start v; py_sum rest acc.
Proof. reflexivity. Qed.

Lemma py_add_float a b : py_add (PyFloat a) (PyFloat b) = Return (PyFloat (a + b)%float).
Proof. reflexivity. Qed.

(** The first addition of [sum]: the [int] 0 becomes the double 0.0. *)
Lemma py_add_start b : py_add (PyInt 0) (PyFloat b) = Return (PyFloat (0 + b)%float).
Proof. reflexivity. Qed.

Lemma Outcome_bind_Return {A B} (a : A) (f : A → Outcome B) : (Return a ≫= f) = f a.
Proof. reflexivity. Qed.

Lemma py_sum_float_Return items : ∀ acc s,
  py_sum (line <$> items) (PyFloat acc) = Return s →
  s = PyFloat (sum_line_totals_from acc items) ∧ Forall convertible items.
Proof.
  induction items as [|i items IH]; intros acc s.
  - intros [= <-]. split; [reflexivity | constructor].
  - rewrite fmap_cons, py_sum_cons.
    destruct (line i) as [v|e] eqn:Hi; [|discriminate].
    apply line_Return in Hi as [-> Hc].
    rewrite Outcome_bind_Return, py_add_float, Outcome_bind_Return.
    intros H. apply IH in H as [-> HF]. split; [reflexivity | by constructor].
Qed.

Lemma py_sum_float_convertible items : ∀ acc,
  Forall convertible items →
  py_sum (line <$> items) (PyFloat acc) = Return (PyFloat (sum_line_totals_from acc items)).
Proof.
  induction items as [|i items IH]; intros acc HF; [reflexivity|].
  inversion HF as [|? ? Hc HF']; subst.
  rewrite fmap_cons, py_sum_cons, (line_convertible _ Hc).
  rewrite Outcome_bind_Return, py_add_float, Outcome_bind_Return. apply IH, HF'.
Qed.

Lemma compute_totals_Return items f :
  _compute_totals items = Return f →
  f = sum_line_totals items ∧ Forall convertible items.
Proof.
  unfold _compute_totals. fold line.
  destruct items as [|i items].
  - intros [= <-]. split; [reflexivity | constructor].
  - rewrite fmap_cons, py_sum_cons.
    destruct (line i) as [v|e] eqn:Hi; [|discriminate].
    apply line_Return in Hi as [-> Hc].
    rewrite Outcome_bind_Return, py_add_start, Outcome_bind_Return.
    destruct (py_sum _ _) as [s|e] eqn:Hs; [|discriminate].
    apply py_sum_float_Return in Hs as [-> HF].
    intros [= <-]. split; [reflexivity | by constructor].
Qed.

Lemma compute_totals_convertible items :
  Forall convertible items → _compute_totals items = Return (sum_line_totals items).
Proof.
  unfold _compute_totals. fold line. intros HF.
  destruct items as [|i items]; [reflexivity|].
  inversion HF as [|? ? Hc HF']; subst.
  rewrite fmap_cons, py_sum_cons, (line_convertible _ Hc).
  rewrite Outcome_bind_Return, py_add_start, Outcome_bind_Return.
  rewrite (py_sum_float_convertible _ _ HF'). reflexivity.
Qed.

(** ** The read handlers, step by step *)

Lemma get_latest_receipt_eq d :
  get_latest_receipt (Some d) =
  (match head (sort_number_desc (receipt d)) with
   | None => Raise (HTTPException 404 "No receipts found")
   | Some doc => ReceiptOut_of_doc doc
   end, Some d).
Proof.
  unfold get_latest_receipt, receipt_find_one_sorted. unfold_M; cbn.
  destruct (head _); reflexivity.
Qed.

Lemma get_receipt_by_number_eq n d :
  get_receipt_by_number n (Some d) =
  (match head (filter (λ x, Doc.number x = n) (receipt d)) with
   | None => Raise (HTTPException 404 "Receipt not found")
   | Some doc => ReceiptOut_of_doc doc
   end, Some d).
Proof.
  unfold get_receipt_by_number, receipt_find_one. unfold_M; cbn.
  destruct (head _); reflexivity.
Qed.

Lemma list_receipts_eq limit d :
  list_receipts limit (Some d) =
  (mapM (λ x, ReceiptOut_of_doc (pop_id x))
     (cursor_limit limit (sort_number_desc (receipt d))), Some d).
Proof. reflexivity. Qed.

(** ** Sorting by number, descending *)

#[local] Instance number_desc_trans : Transitive number_desc.
Proof. intros a b c. unfold number_desc. lia. Qed.

#[local] Instance number_desc_total : Total number_desc.
Proof. intros a b. unfold number_desc. lia. Qed.

Lemma sort_number_desc_perm l : sort_number_desc l ≡ₚ l.
Proof. apply merge_sort_Permutation. Qed.

Lemma sort_number_desc_sorted l : StronglySorted number_desc (sort_number_desc l).
Proof. apply (StronglySorted_merge_sort number_desc). Qed.

Lemma sort_number_desc_length l : length (sort_number_desc l) = length l.
Proof. apply Permutation_length, sort_number_desc_perm. Qed.

(** The head of the sorted list is a document of the list with the
    greatest number. *)
Lemma head_sort_number_desc l doc :
  head (sort_number_desc l) = Some doc →
  doc ∈ l ∧ ∀ x, x ∈ l → Doc.number x ≤ Doc.number doc.
Proof.
  intros Hh.
  pose proof (sort_number_desc_sorted l) as Hs.
  pose proof (sort_number_desc_perm l) as Hp.
  destruct (sort_number_desc l) as [|y k]; [discriminate|].
  injection Hh as ->. split.
  - rewrite <- Hp. left.
  - intros x Hx. rewrite <- Hp in Hx.
    apply StronglySorted_inv in Hs as [_ Hall].
    apply elem_of_cons in Hx as [->|Hx]; [lia|].
    rewrite Forall_forall in Hall. apply (Hall x Hx).
Qed.

Lemma head_sort_number_desc_None l : head (sort_number_desc l) = None → l = [].
Proof.
  intros Hh. apply head_None in Hh.
  apply Permutation_nil_r. rewrite <- Hh. symmetry. apply sort_number_desc_perm.
Qed.

Lemma StronglySorted_number_gt l :
  StronglySorted number_desc l → NoDup (Doc.number <$> l) → StronglySorted number_gt l.
Proof.
  induction 1 as [|x l Hs IH Hall]; intros Hnd; constructor.
  - apply IH. by apply NoDup_cons in Hnd as [_ ?].
  - rewrite fmap_cons in Hnd. apply NoDup_cons in Hnd as [Hx _].
    rewrite Forall_forall in Hall |- *. intros y Hy.
    specialize (Hall y Hy). unfold number_desc, number_gt in *.
    assert (Doc.number y ≠ Doc.number x); [|lia].
    intros Heq. apply Hx. rewrite <- Heq. by apply list_elem_of_fmap_2.
Qed.

Lemma StronglySorted_take {A} (R : relation A) n l :
  StronglySorted R l → StronglySorted R (take n l).
Proof.
  intros Hs. revert n. induction Hs as [|x l Hs IH Hall]; intros [|n]; cbn; try constructor.
  - apply IH.
  - by apply Forall_take.
Qed.

Lemma sort_number_desc_strict l :
  NoDup (Doc.number <$> l) → StronglySorted number_gt (sort_number_desc l).
Proof.
  intros Hnd. apply StronglySorted_number_gt; [apply sort_number_desc_sorted|].
  by rewrite (sort_number_desc_perm l).
Qed.

Lemma filter_none {A} (P : A → Prop) `{∀ x, Decision (P x)} (l : list A) :
  Forall (λ x, ¬ P x) l → filter P l = [].
Proof.
  induction 1 as [|x l Hx _ IH]; [reflexivity|].
  by rewrite filter_cons_False.
Qed.

(** Reading out a list of valid documents. *)
Lemma mapM_ReceiptOut_of_doc l :
  Forall Doc_valid l →
  mapM (λ x, ReceiptOut_of_doc (pop_id x)) l = Return (to_out <$> l).
Proof.
  induction 1 as [|x l Hx _ IH]; [reflexivity|].
  cbn [mapM]. rewrite ReceiptOut_of_doc_pop_id, (ReceiptOut_of_doc_valid _ Hx).
  rewrite Outcome_bind_Return. fold (mapM (λ x, ReceiptOut_of_doc (pop_id x)) l).
  rewrite IH. reflexivity.
Qed.

(** ** Validation of the request body *)

Lemma parse_ReceiptItem_valid raw i :
  parse_ReceiptItem raw = Some i → ReceiptItem.valid i = true.
Proof.
  unfold parse_ReceiptItem.
  destruct (Body.name raw) as [n|]; [|discriminate].
  destruct (Body.price raw) as [p|]; [|discriminate]. cbn [mbind option_bind].
  destruct (ReceiptItem.valid _) eqn:Hv; [|discriminate].
  by intros [= <-].
Qed.

Lemma parse_ReceiptCreate_valid body payload :
  parse_ReceiptCreate body = Some payload →
  forallb ReceiptItem.valid (ReceiptCreate.items payload) = true.
Proof.
  unfold parse_ReceiptCreate.
  destruct (mapM parse_ReceiptItem _) as [its|] eqn:Hm; [|discriminate].
  cbn [mbind option_bind]. intros [= <-]. cbn.
  apply mapM_Some in Hm.
  induction Hm as [|raw i raws its Hi _ IH]; [reflexivity|].
  cbn [forallb]. by rewrite (parse_ReceiptItem_valid _ _ Hi), IH.
Qed.

Lemma float_lt_zero_not_ge (p : float) : (p <? 0)%float = true → (0 <=? p)%float = false.
Proof.
  rewrite ltb_spec, leb_spec. unfold SFltb, SFleb.
  change (Prim2SF 0) with (S754_zero false).
  destruct (Prim2SF p) as [[]| [] | | [] m e]; cbn; congruence.
Qed.

Lemma parse_ReceiptItem_bad raw : bad_item raw → parse_ReceiptItem raw = None.
Proof.
  unfold parse_ReceiptItem, ReceiptItem.valid.
  intros [(q & Hq & Hlt)|(p & Hp & Hlt)].
  - rewrite Hq. destruct (Body.name raw); [|reflexivity].
    destruct (Body.price raw); [|reflexivity].
    cbn [mbind option_bind default from_option id ReceiptItem.quantity].
    replace (1 <=? q) with false by (symmetry; apply Z.leb_gt; lia). reflexivity.
  - rewrite Hp. destruct (Body.name raw); [|reflexivity].
    cbn [mbind option_bind ReceiptItem.price].
    rewrite (float_lt_zero_not_ge _ Hlt), andb_false_r. reflexivity.
Qed.

Lemma parse_ReceiptCreate_bad body raw :
  raw ∈ default [] (Body.items body) → bad_item raw → parse_ReceiptCreate body = None.
Proof.
  intros Hin Hbad. unfold parse_ReceiptCreate.
  destruct (mapM parse_ReceiptItem _) as [its|] eqn:Hm; [|reflexivity].
  assert (is_Some (mapM parse_ReceiptItem (default [] (Body.items body)))) as Hs by eauto.
  apply mapM_is_Some_1 in Hs. rewrite Forall_forall in Hs.
  specialize (Hs raw Hin). cbn in Hs. rewrite (parse_ReceiptItem_bad _ Hbad) in Hs.
  by destruct Hs.
Qed.

(** ** What a request can do to the database *)

Lemma post_api_receipts_step now body d :
  ∃ d', (post_api_receipts now body (Some d)).2 = Some d' ∧ db_step d d'.
Proof.
  unfold post_api_receipts.
  destruct (parse_ReceiptCreate body) as [payload|] eqn:Hp.
  - rewrite create_receipt_eq.
    destruct (_compute_totals _) as [subtotal|e]; cbn.
    + eexists; split; [reflexivity|]. apply step_insert; [reflexivity|].
      apply (parse_ReceiptCreate_valid _ _ Hp).
    + eexists; split; [reflexivity|]. apply step_alloc.
  - eexists; split; [reflexivity|]. apply step_read.
Qed.

Lemma serve_step rq d : ∃ d', (serve rq (Some d)).2 = Some d' ∧ db_step d d'.
Proof.
  destruct rq as [now body| |n|limit]; cbn [serve]; rewrite fmap_run.
  - destruct (post_api_receipts_step now body d) as (d' & Hd' & Hstep).
    exists d'. split; [|exact Hstep].
    destruct (post_api_receipts now body (Some d)) as [[r|e] s']; exact Hd'.
  - rewrite get_latest_receipt_eq. exists d. split; [|apply step_read].
    destruct (match head _ with Some doc => _ | None => _ end); reflexivity.
  - rewrite get_receipt_by_number_eq. exists d. split; [|apply step_read].
    destruct (match head _ with Some doc => _ | None => _ end); reflexivity.
  - rewrite list_receipts_eq. exists d. split; [|apply step_read].
    destruct (mapM _ _); reflexivity.
Qed.

Lemma serve_None rq : (serve rq None).2 = None.
Proof.
  destruct rq as [now body| |n|limit]; try reflexivity.
  cbn [serve]. rewrite fmap_run. unfold post_api_receipts.
  destruct (parse_ReceiptCreate body); reflexivity.
Qed.

Lemma db_step_prefix d d' : db_step d d' → receipt d `prefix_of` receipt d'.
Proof. destruct 1; cbn; [done | done | by eexists]. Qed.

Lemma db_step_seq_le d d' :
  db_step d d' → seq_le (persisted_seq (Some d)) (persisted_seq (Some d')).
Proof.
  destruct 1; [apply seq_le_refl | apply seq_le_bump | apply seq_le_bump].
Qed.

(** ** The invariant of the store *)

Lemma consistent_empty : consistent empty_database.
Proof. split; cbn; constructor. Qed.

Lemma consistent_bump d : consistent d → consistent (bump d).
Proof.
  intros [Hi Hd Hv]. split; rewrite ?receipt_bump; [|done|done].
  rewrite next_seq_bump. eapply Forall_impl; [exact Hi|]. cbn. intros; lia.
Qed.

Lemma consistent_inserted d doc :
  consistent d → Doc.number doc = next_seq d → Doc_valid doc → consistent (inserted d doc).
Proof.
  intros [Hi Hd Hv] Hn Hdoc.
  assert (next_seq (inserted d doc) = next_seq d + 1) as Hnext by apply next_seq_bump.
  split; cbn [receipt inserted].
  - rewrite Hnext. apply Forall_app. split.
    + eapply Forall_impl; [exact Hi|]. cbn. intros; lia.
    + repeat constructor. lia.
  - rewrite fmap_app. apply NoDup_app. split; [exact Hd|]. split; [|apply NoDup_singleton].
    intros n Hin Hin'. apply list_elem_of_singleton in Hin'. subst n.
    apply list_elem_of_fmap in Hin as (x & Hx & Hin).
    rewrite Forall_forall in Hi. specialize (Hi x Hin). cbn in Hi. lia.
  - apply Forall_app. split; [exact Hv | by repeat constructor].
Qed.

Lemma db_step_consistent d d' : db_step d d' → consistent d → consistent d'.
Proof.
  destruct 1; intros Hc; [done | by apply consistent_bump | by apply consistent_inserted].
Qed.

(** Serving any list of requests: the handle stays configured, the
    receipts already persisted stay where they are, the counter does not
    go down, and the invariant is kept. *)
Lemma serve_all_Some rqs : ∀ d,
  ∃ d', (serve_all rqs (Some d)).2 = Some d'
    ∧ receipt d `prefix_of` receipt d'
    ∧ seq_le (persisted_seq (Some d)) (persisted_seq (Some d'))
    ∧ (consistent d → consistent d').
Proof.
  induction rqs as [|rq rqs IH]; intros d.
  - exists d. cbn. split; [done|]. split; [done|]. split; [apply seq_le_refl | done].
  - cbn [serve_all].
    destruct (serve_step rq d) as (d1 & Hd1 & Hstep).
    destruct (serve rq (Some d)) as [o s1]. cbn in Hd1. subst s1.
    destruct (IH d1) as (d' & Hd' & Hpre & Hle & Hc).
    destruct (serve_all rqs (Some d1)) as [os s']. cbn in Hd'. subst s'.
    exists d'. cbn. split; [done|]. split; [|split].
    + etrans; [apply (db_step_prefix _ _ Hstep) | exact Hpre].
    + eapply seq_le_trans; [apply (db_step_seq_le _ _ Hstep) | exact Hle].
    + intros H. apply Hc, (db_step_consistent _ _ Hstep H).
Qed.

Lemma serve_all_None rqs : (serve_all rqs None).2 = None.
Proof.
  induction rqs as [|rq rqs IH]; [reflexivity|].
  cbn [serve_all]. pose proof (serve_None rq) as H.
  destruct (serve rq None) as [o s1]. cbn in H. subst s1.
  destruct (serve_all rqs None) as [os s']. exact IH.
Qed.

Lemma reachable_consistent d : reachable d → consistent d.
Proof.
  intros [rqs Hr]. destruct (serve_all_Some rqs empty_database) as (d' & Hd' & _ & _ & Hc).
  rewrite Hr in Hd'. injection Hd' as <-. apply Hc, consistent_empty.
Qed.

Lemma call_n_get_next_receipt_number_seq n : ∀ d,
  persisted_seq (call_n _get_next_receipt_number (S n) (Some d)).2 =
  Some (next_seq d + Z.of_nat n).
Proof.
  induction n as [|n IH]; intros d.
  - cbn [call_n]. rewrite get_next_receipt_number_eq. cbn [snd].
    rewrite persisted_seq_bump. f_equal. lia.
  - change (call_n _get_next_receipt_number (S (S n)) (Some d))
      with (let '(o, s') := _get_next_receipt_number (Some d) in
            let '(os, s'') := call_n _get_next_receipt_number (S n) s' in
            (o :: os, s'')).
    rewrite get_next_receipt_number_eq. specialize (IH (bump d)).
    destruct (call_n _get_next_receipt_number (S n) (Some (bump d))) as [os s''].
    cbn [snd] in *. rewrite IH, next_seq_bump. f_equal. lia.
Qed.

Lemma serve_all_seq_le rqs s :
  seq_le (persisted_seq s) (persisted_seq (serve_all rqs s).2).
Proof.
  destruct s as [d|].
  - destruct (serve_all_Some rqs d) as (d' & -> & _ & Hle & _). exact Hle.
  - exact I.
Qed.

(** ** Dates in the store *)

Lemma bson_datetime_whole t : t mod 1000 = 0 → bson_datetime t = t.
Proof. unfold bson_datetime. intros H. pose proof (Z.div_mod t 1000). lia. Qed.

Lemma bson_datetime_idem t : bson_datetime (bson_datetime t) = bson_datetime t.
Proof.
  apply bson_datetime_whole. unfold bson_datetime.
  rewrite Z.mul_comm. apply Z.mod_mul. lia.
Qed.

(** ** The scenarios of the design *)

(** Three receipts created in sequence, with items [A x2 at 10.0], none, and
    [B x1 at 5.5; C x3 at 2.0]: numbers 1, 2, 3 and subtotals 20.0, 0.0, 11.5. *)
Example scenario_three_receipts :
  (λ doc, (Doc.number doc, Doc.subtotal doc)) <$> receipt demo_db
  = [(1, 20%float); (2, 0%float); (3, 11.5%float)].
Proof. vm_compute. reflexivity. Qed.

(** A number that was never issued is not found. *)
Example scenario_never_issued :
  (get_receipt_by_number 9 (Some demo_db)).1 = Raise (HTTPException 404 "Receipt not found").
Proof. vm_compute. reflexivity. Qed.

(** The handler does not reject a limit of 0, which the cursor takes as
    "no limit": every receipt is listed. *)
Example list_receipts_limit_zero :
  (λ r, ReceiptOut.number r) <$>
    match (list_receipts 0 (Some demo_db)).1 with Return l => l | Raise _ => [] end
  = [3; 2; 1].
Proof. vm_compute. reflexivity. Qed.

(** A quantity too large for a double makes [create_receipt] fail after
    the number was allocated. *)
Example create_receipt_overflow :
  let payload := ReceiptCreate.mk None [ReceiptItem.mk "A" (10 ^ 400) 1%float] None in
  create_receipt 9 payload (Some demo_db) = (Raise OverflowError, Some (bump demo_db)).
Proof. vm_compute. reflexivity. Qed.

(** * The claims *)

(** C1. Starting from a database with no counter record, [n] successive
    calls of [_get_next_receipt_number] return 1, 2, ..., [n] in order and
    leave the counter at [n] (so the first call creates it, at 1); and the
    persisted [seq] never decreases, whatever calls of the allocator and
    whatever requests are served, from any state. *)
Theorem allocator_counts_from_one (d : Database) :
  counters d !! COUNTER_ID = None →
  (∀ n, (call_n _get_next_receipt_number n (Some d)).1 =
        (λ k, Return (Z.of_nat k)) <$> List.seq 1 n)
  ∧ (∀ n, persisted_seq (call_n _get_next_receipt_number (S n) (Some d)).2 =
          Some (Z.of_nat (S n)))
  ∧ (∀ n s, seq_le (persisted_seq s)
              (persisted_seq (call_n _get_next_receipt_number n s).2))
  ∧ (∀ rqs s, seq_le (persisted_seq s) (persisted_seq (serve_all rqs s).2)).
Proof.
  intros Hnone.
  assert (next_seq d = 1) as Hnext by (unfold next_seq; by rewrite Hnone).
  split; [|split; [|split]].
  - intros n. rewrite call_n_get_next_receipt_number, Hnext.
    rewrite <- fmap_S_seq, <- list_fmap_compose.
    apply list_fmap_ext. intros _ k _. cbn. f_equal. lia.
  - intros n. rewrite call_n_get_next_receipt_number_seq, Hnext. f_equal. lia.
  - intros n s. apply call_n_seq_le, get_next_receipt_number_seq_le.
  - apply serve_all_seq_le.
Qed.

Lemma allocator_counts_from_one_witness :
  (call_n _get_next_receipt_number 3 (Some empty_database)).1 = [Return 1; Return 2; Return 3].
Proof. exact (proj1 (allocator_counts_from_one empty_database eq_refl) 3%nat). Defined.

(** C2. Whenever [create_receipt] returns a receipt, its subtotal is the
    sum over the items of quantity times price (the binary64 products,
    added in order from 0.0), its total equals its subtotal, and an empty
    item list gives subtotal 0; and it does return one for every item list
    that meets the item constraints and whose quantities fit a double. *)
Theorem create_receipt_totals (now : datetime) (payload : ReceiptCreate.t) (d : Database) :
  (∀ r s', create_receipt now payload (Some d) = (Return r, s') →
     ReceiptOut.subtotal r = sum_line_totals (ReceiptCreate.items payload)
     ∧ ReceiptOut.total r = ReceiptOut.subtotal r
     ∧ (ReceiptCreate.items payload = [] → ReceiptOut.subtotal r = 0%float))
  ∧ (forallb ReceiptItem.valid (ReceiptCreate.items payload) = true →
     Forall convertible (ReceiptCreate.items payload) →
     ∃ r s', create_receipt now payload (Some d) = (Return r, s')).
Proof.
  split.
  - intros r s' Hc.
    apply create_receipt_Return in Hc as (d0 & subtotal & _ & Ht & _ & -> & _).
    apply compute_totals_Return in Ht as [-> _]. cbn.
    split; [reflexivity|]. split; [reflexivity|]. intros ->. reflexivity.
  - intros Hv Hconv. rewrite create_receipt_eq, (compute_totals_convertible _ Hconv).
    cbn zeta. rewrite ReceiptOut_of_doc_valid by exact Hv. eauto.
Qed.

Lemma create_receipt_totals_witness :
  ∃ r s', create_receipt 7 demo_payload (Some empty_database) = (Return r, s')
          ∧ ReceiptOut.subtotal r = 11.5%float.
Proof.
  destruct (create_receipt_totals 7 demo_payload empty_database) as [Hsub Hret].
  destruct Hret as (r & s' & Hc); [reflexivity | repeat constructor |].
  exists r, s'. split; [exact Hc|].
  destruct (Hsub r s' Hc) as (-> & _). reflexivity.
Defined.

(** C3. A request to create a receipt with an item whose quantity is
    below 1 or whose price is below 0 is rejected with the validation error
    (status 422) before the handler runs: no number is allocated and the
    state, the counter included, is what it was. *)
Theorem invalid_item_rejected (now : datetime) (body : Body.t) (s : State) (raw : Body.item) :
  raw ∈ default [] (Body.items body) →
  bad_item raw →
  post_api_receipts now body s = (Raise RequestValidationError, s)
  ∧ status_code_of RequestValidationError = 422
  ∧ persisted_seq (post_api_receipts now body s).2 = persisted_seq s.
Proof.
  intros Hin Hbad. unfold post_api_receipts.
  rewrite (parse_ReceiptCreate_bad _ _ Hin Hbad). done.
Qed.

Lemma invalid_item_rejected_witness :
  post_api_receipts 5 (Body.mk None (Some [zero_quantity]) None []) (Some empty_database)
    = (Raise RequestValidationError, Some empty_database)
  ∧ post_api_receipts 5 (Body.mk None (Some [negative_price]) None []) (Some empty_database)
    = (Raise RequestValidationError, Some empty_database).
Proof.
  split.
  - refine (proj1 (invalid_item_rejected 5 _ _ zero_quantity _ _)).
    + cbn. left.
    + left. exists 0. split; [reflexivity | lia].
  - refine (proj1 (invalid_item_rejected 5 _ _ negative_price _ _)).
    + cbn. left.
    + right. exists (-1)%float. split; reflexivity.
Defined.

(** C4. On a consistent store (every store the service builds from the
    empty one is), for a positive limit (20 when the request gives none),
    the list route returns at most [limit] receipts, exactly as many as the
    limit and the store allow, in strictly descending order of number; the
    store is unchanged. *)
Theorem list_receipts_bounded_descending (d : Database) (limit : option Z) :
  consistent d →
  0 < default 20 limit →
  ∃ l, serve (GET_receipts limit) (Some d) = (Return (Many l), Some d)
       ∧ Z.of_nat (length l) ≤ default 20 limit
       ∧ length l = Nat.min (Z.to_nat (default 20 limit)) (length (receipt d))
       ∧ StronglySorted (λ a b, ReceiptOut.number b < ReceiptOut.number a) l.
Proof.
  intros [_ Hnd Hv] Hpos. set (k := default 20 limit) in *.
  set (cur := cursor_limit k (sort_number_desc (receipt d))).
  assert (cur = take (Z.to_nat k) (sort_number_desc (receipt d))) as Hcur.
  { unfold cur, cursor_limit. destruct (decide (k = 0)); [lia|].
    by rewrite Z.abs_eq by lia. }
  assert (Forall Doc_valid cur) as Hvc.
  { rewrite Hcur. apply Forall_take. by rewrite (sort_number_desc_perm (receipt d)). }
  exists (to_out <$> cur). split; [|split; [|split]].
  - cbn [serve]. rewrite fmap_run, list_receipts_eq. fold k. fold cur.
    by rewrite (mapM_ReceiptOut_of_doc _ Hvc).
  - rewrite length_fmap, Hcur, length_take. lia.
  - rewrite length_fmap, Hcur, length_take, sort_number_desc_length. reflexivity.
  - apply (StronglySorted_fmap to_out number_gt); [intros x y Hxy; exact Hxy|].
    rewrite Hcur.
    apply StronglySorted_take, sort_number_desc_strict, Hnd.
Qed.

Lemma list_receipts_bounded_descending_witness :
  ∃ l, serve (GET_receipts (Some 2)) (Some demo_db) = (Return (Many l), Some demo_db)
       ∧ Z.of_nat (length l) ≤ 2
       ∧ length l = Nat.min (Z.to_nat 2) (length (receipt demo_db))
       ∧ StronglySorted (λ a b, ReceiptOut.number b < ReceiptOut.number a) l.
Proof.
  apply (list_receipts_bounded_descending demo_db (Some 2)).
  - split.
    + repeat constructor.
    + apply (bool_decide_unpack _). vm_compute. exact I.
    + repeat constructor.
  - cbn. lia.
Defined.

(** C5. On a store whose documents read back as receipts: when it holds
    no receipt, [get_latest_receipt] raises the 404 exception; otherwise it
    returns a persisted receipt whose number is the greatest of all the
    persisted numbers.  The store is unchanged either way. *)
Theorem get_latest_receipt_max (d : Database) :
  Forall Doc_valid (receipt d) →
  (receipt d = [] →
     get_latest_receipt (Some d) = (Raise (HTTPException 404 "No receipts found"), Some d))
  ∧ (receipt d ≠ [] →
     ∃ doc, doc ∈ receipt d
       ∧ get_latest_receipt (Some d) = (Return (to_out doc), Some d)
       ∧ ∀ x, x ∈ receipt d → Doc.number x ≤ ReceiptOut.number (to_out doc)).
Proof.
  intros Hv. rewrite get_latest_receipt_eq. split.
  - intros ->. reflexivity.
  - intros Hne. destruct (head (sort_number_desc (receipt d))) as [doc|] eqn:Hh.
    + apply head_sort_number_desc in Hh as [Hin Hmax].
      exists doc. split; [exact Hin|]. split; [|exact Hmax].
      rewrite Forall_forall in Hv. by rewrite (ReceiptOut_of_doc_valid _ (Hv doc Hin)).
    + by apply head_sort_number_desc_None in Hh.
Qed.

Lemma get_latest_receipt_max_witness :
  ∃ doc, doc ∈ receipt demo_db
    ∧ get_latest_receipt (Some demo_db) = (Return (to_out doc), Some demo_db)
    ∧ ∀ x, x ∈ receipt demo_db → Doc.number x ≤ ReceiptOut.number (to_out doc).
Proof.
  apply (get_latest_receipt_max demo_db).
  - repeat constructor.
  - discriminate.
Defined.

(** C6 (as amended). On a consistent store, when [create_receipt] returns
    a receipt with number [n], [get_receipt_by_number n] called next returns
    a record with the same number, brand, customer name, items, notes,
    subtotal and total, whose [created_at] and [updated_at] are those of the
    returned receipt cut down to whole milliseconds, the resolution of the
    store's dates.  The two records are equal in all fields when the clock
    reading is a whole number of milliseconds. *)
Theorem get_by_number_after_create (now : datetime) (payload : ReceiptCreate.t)
    (d : Database) (r : ReceiptOut.t) (s' : State) :
  consistent d →
  create_receipt now payload (Some d) = (Return r, s') →
  ∃ r',
    get_receipt_by_number (ReceiptOut.number r) s' = (Return r', s')
    ∧ ReceiptOut.number r' = ReceiptOut.number r
    ∧ ReceiptOut.brand r' = ReceiptOut.brand r
    ∧ ReceiptOut.customer_name r' = ReceiptOut.customer_name r
    ∧ ReceiptOut.items r' = ReceiptOut.items r
    ∧ ReceiptOut.notes r' = ReceiptOut.notes r
    ∧ ReceiptOut.subtotal r' = ReceiptOut.subtotal r
    ∧ ReceiptOut.total r' = ReceiptOut.total r
    ∧ ReceiptOut.created_at r' = bson_datetime (ReceiptOut.created_at r)
    ∧ ReceiptOut.updated_at r' = bson_datetime (ReceiptOut.updated_at r)
    ∧ (now mod 1000 = 0 → r' = r).
Proof.
  intros [Hi _ _] Hc.
  apply create_receipt_Return in Hc as (d0 & subtotal & [= <-] & _ & Hv & -> & ->).
  exists (to_out (stored_doc d now payload subtotal)). split.
  - rewrite get_receipt_by_number_eq. cbn [receipt inserted].
    rewrite filter_app.
    replace (filter _ (receipt d)) with (@nil Doc.t).
    + rewrite app_nil_l, filter_cons_True by reflexivity. cbn [head].
      by rewrite (ReceiptOut_of_doc_valid (stored_doc d now payload subtotal) Hv).
    + symmetry. apply filter_none. eapply Forall_impl; [exact Hi|].
      cbn. intros x Hx Heq. lia.
  - repeat (split; [reflexivity|]). intros Hms. unfold to_out; cbn.
    rewrite (bson_datetime_whole _ Hms). reflexivity.
Qed.

Lemma get_by_number_after_create_witness :
  ∃ r s' r', create_receipt 8 demo_payload (Some demo_db) = (Return r, s')
    ∧ get_receipt_by_number (ReceiptOut.number r) s' = (Return r', s')
    ∧ ReceiptOut.total r' = ReceiptOut.total r
    ∧ ReceiptOut.created_at r' = bson_datetime (ReceiptOut.created_at r).
Proof.
  destruct (create_receipt 8 demo_payload (Some demo_db)) as [[r|e] s'] eqn:Hc;
    [|vm_compute in Hc; discriminate].
  destruct (get_by_number_after_create 8 demo_payload demo_db r s') as (r' & Hg & Hf);
    [|exact Hc|].
  - split.
    + repeat constructor.
    + apply (bool_decide_unpack _). vm_compute. exact I.
    + repeat constructor.
  - exists r, s', r'. split; [reflexivity|]. split; [exact Hg|].
    destruct Hf as (_ & _ & _ & _ & _ & _ & Ht & Hcr & _). split; [exact Ht | exact Hcr].
Defined.

(** C6, as first stated, fails: a receipt created at the clock reading
    1700000000123456 (microseconds) comes back from [get_receipt_by_number]
    dated 1700000000123000. *)
Lemma get_by_number_after_create_counterexample :
  ∃ r s',
    consistent demo_db
    ∧ create_receipt 1700000000123456 demo_payload (Some demo_db) = (Return r, s')
    ∧ get_receipt_by_number (ReceiptOut.number r) s' ≠ (Return r, s').
Proof.
  destruct (create_receipt 1700000000123456 demo_payload (Some demo_db)) as [[r|e] s'] eqn:Hc;
    [|vm_compute in Hc; discriminate].
  exists r, s'. split; [|split; [reflexivity|]].
  - split.
    + repeat constructor.
    + apply (bool_decide_unpack _). vm_compute. exact I.
    + repeat constructor.
  - vm_compute in Hc. injection Hc as <- <-. intros H.
    apply (f_equal (λ x, match x.1 with
                         | Return r0 => ReceiptOut.created_at r0
                         | Raise _ => 1
                         end)) in H.
    vm_compute in H. discriminate H.
Qed.

(** C7. With [db] unset, [create_receipt], [get_latest_receipt],
    [get_receipt_by_number] and [list_receipts] (and the allocator itself)
    raise the HTTP 500 exception "Database not configured" at once, for
    every argument: nothing is allocated or persisted, and [db] is still
    unset afterwards.  On the POST route this is the answer to every body
    that validates; a body that does not is answered 422 before the handler
    is called. *)
Theorem unconfigured_store_rejects (now : datetime) (payload : ReceiptCreate.t)
    (number limit : Z) (body : Body.t) :
  create_receipt now payload None = (Raise not_configured, None)
  ∧ get_latest_receipt None = (Raise not_configured, None)
  ∧ get_receipt_by_number number None = (Raise not_configured, None)
  ∧ list_receipts limit None = (Raise not_configured, None)
  ∧ _get_next_receipt_number None = (Raise not_configured, None)
  ∧ not_configured = HTTPException 500 "Database not configured"
  ∧ status_code_of not_configured = 500
  ∧ post_api_receipts now body None =
      (Raise (match parse_ReceiptCreate body with
              | Some _ => not_configured
              | None => RequestValidationError
              end), None).
Proof.
  repeat split. unfold post_api_receipts.
  destruct (parse_ReceiptCreate body); reflexivity.
Qed.

(** C8. When [create_receipt] returns a receipt, its [created_at] and
    [updated_at] are both the instant read from the UTC clock, and those of
    the document it persisted are both that instant in the store's
    milliseconds; whatever requests are served afterwards, that document is
    still in the store, as it was. *)
Theorem timestamps_set_once (now : datetime) (payload : ReceiptCreate.t)
    (s : State) (r : ReceiptOut.t) (s' : State) :
  create_receipt now payload s = (Return r, s') →
  ReceiptOut.created_at r = now
  ∧ ReceiptOut.updated_at r = now
  ∧ ∃ d' i doc,
      s' = Some d'
      ∧ receipt d' !! i = Some doc
      ∧ Doc.created_at doc = bson_datetime now
      ∧ Doc.updated_at doc = bson_datetime now
      ∧ ∀ rqs, ∃ d'', (serve_all rqs s').2 = Some d'' ∧ receipt d'' !! i = Some doc.
Proof.
  intros Hc. apply create_receipt_Return in Hc as (d & subtotal & -> & _ & _ & -> & ->).
  split; [reflexivity|]. split; [reflexivity|].
  eexists _, (length (receipt d)), _. split; [reflexivity|].
  assert (receipt (inserted d (stored_doc d now payload subtotal)) !! length (receipt d)
          = Some (stored_doc d now payload subtotal)) as Hl.
  { cbn [receipt inserted]. rewrite lookup_app_r by lia. by rewrite Nat.sub_diag. }
  split; [exact Hl|]. split; [reflexivity|]. split; [reflexivity|].
  intros rqs. destruct (serve_all_Some rqs (inserted d (stored_doc d now payload subtotal)))
    as (d'' & Hd'' & Hpre & _).
  exists d''. split; [exact Hd''|]. eapply prefix_lookup_Some; eassumption.
Qed.

Lemma timestamps_set_once_witness :
  ∃ r s', create_receipt 8 demo_payload (Some demo_db) = (Return r, s')
    ∧ ReceiptOut.created_at r = 8
    ∧ ReceiptOut.updated_at r = 8.
Proof.
  destruct (create_receipt 8 demo_payload (Some demo_db)) as [[r|e] s'] eqn:Hc;
    [|vm_compute in Hc; discriminate].
  exists r, s'. split; [reflexivity|].
  destruct (timestamps_set_once 8 demo_payload (Some demo_db) r s' Hc) as (H1 & H2 & _).
  split; [exact H1 | exact H2].
Defined.

(** C9. The brand of a created receipt, returned and persisted, is the
    constant [BRAND] (name "VELLIXAO", phone "085706400133", a logo URL),
    whatever the request body holds, unknown keys included: the payload
    built from the body has no brand. *)
Theorem brand_is_constant (now : datetime) (body : Body.t)
    (s : State) (r : ReceiptOut.t) (s' : State) :
  post_api_receipts now body s = (Return r, s') →
  ReceiptOut.brand r = BRAND
  ∧ (∃ d' doc, s' = Some d' ∧ last (receipt d') = Some doc ∧ Doc.brand doc = BRAND)
  ∧ Brand.name BRAND = "VELLIXAO"
  ∧ Brand.phone BRAND = Some "085706400133"
  ∧ is_Some (Brand.logo_url BRAND).
Proof.
  unfold post_api_receipts. destruct (parse_ReceiptCreate body) as [payload|]; [|discriminate].
  intros Hc. apply create_receipt_Return in Hc as (d & subtotal & -> & _ & _ & -> & ->).
  split; [reflexivity|]. split; [|by eauto].
  eexists _, _. split; [reflexivity|]. split; [apply last_snoc | reflexivity].
Qed.

Lemma brand_is_constant_witness :
  ∃ r s', post_api_receipts 8 demo_body_with_brand (Some demo_db) = (Return r, s')
    ∧ ReceiptOut.brand r = BRAND.
Proof.
  destruct (post_api_receipts 8 demo_body_with_brand (Some demo_db)) as [[r|e] s'] eqn:Hc;
    [|vm_compute in Hc; discriminate].
  exists r, s'. split; [reflexivity|].
  exact (proj1 (brand_is_constant 8 demo_body_with_brand (Some demo_db) r s' Hc)).
Defined.

(** C10 (as amended). When [create_receipt] returns a receipt, the
    document it added to the store (the last one, after those that were
    there) agrees with the receipt on number, brand, customer name, items,
    notes, subtotal and total; its [created_at] and [updated_at] are those
    of the receipt cut down to whole milliseconds, the resolution of the
    store's dates, so that document and receipt agree on every field when
    the clock reading is a whole number of milliseconds. *)
Theorem persisted_equals_returned (now : datetime) (payload : ReceiptCreate.t)
    (s : State) (r : ReceiptOut.t) (s' : State) :
  create_receipt now payload s = (Return r, s') →
  ∃ d d' doc,
    s = Some d ∧ s' = Some d' ∧ receipt d' = receipt d ++ [doc]
    ∧ Doc.number doc = ReceiptOut.number r
    ∧ Doc.brand doc = ReceiptOut.brand r
    ∧ Doc.customer_name doc = ReceiptOut.customer_name r
    ∧ Doc.items doc = ReceiptOut.items r
    ∧ Doc.notes doc = ReceiptOut.notes r
    ∧ Doc.subtotal doc = ReceiptOut.subtotal r
    ∧ Doc.total doc = ReceiptOut.total r
    ∧ Doc.created_at doc = bson_datetime (ReceiptOut.created_at r)
    ∧ Doc.updated_at doc = bson_datetime (ReceiptOut.updated_at r)
    ∧ (now mod 1000 = 0 → to_out doc = r).
Proof.
  intros Hc. apply create_receipt_Return in Hc as (d & subtotal & -> & _ & _ & -> & ->).
  eexists _, _, _. split; [reflexivity|]. split; [reflexivity|].
  split; [reflexivity|]. repeat (split; [reflexivity|]).
  intros Hms. unfold to_out; cbn. rewrite (bson_datetime_whole _ Hms). reflexivity.
Qed.

Lemma persisted_equals_returned_witness :
  ∃ r s' d' doc,
    create_receipt 8 demo_payload (Some demo_db) = (Return r, s')
    ∧ s' = Some d' ∧ last (receipt d') = Some doc
    ∧ Doc.total doc = ReceiptOut.total r
    ∧ Doc.created_at doc = bson_datetime (ReceiptOut.created_at r).
Proof.
  destruct (create_receipt 8 demo_payload (Some demo_db)) as [[r|e] s'] eqn:Hc;
    [|vm_compute in Hc; discriminate].
  destruct (persisted_equals_returned 8 demo_payload (Some demo_db) r s' Hc)
    as (d & d' & doc & _ & -> & Hr & Hf).
  exists r, (Some d'), d', doc. split; [reflexivity|]. split; [reflexivity|].
  split; [rewrite Hr; apply last_snoc|].
  destruct Hf as (_ & _ & _ & _ & _ & _ & Ht & Hcr & _). split; [exact Ht | exact Hcr].
Defined.

(** C10, as first stated, fails: for a receipt created at the clock
    reading 1700000000123456 (microseconds) the persisted document is dated
    1700000000123000, the response 1700000000123456. *)
Lemma persisted_equals_returned_counterexample :
  ∃ r d' doc,
    create_receipt 1700000000123456 demo_payload (Some demo_db) = (Return r, Some d')
    ∧ last (receipt d') = Some doc
    ∧ Doc.created_at doc ≠ ReceiptOut.created_at r
    ∧ Doc.updated_at doc ≠ ReceiptOut.updated_at r.
Proof.
  eexists _, _, _. split; [vm_compute; reflexivity|].
  split; [vm_compute; reflexivity|]. split; vm_compute; discriminate.
Qed.

(** * Further properties of the code *)

(** ** The allocator, from any store *)

Lemma next_seq_stored d : next_seq d = stored_seq d + 1.
Proof.
  unfold next_seq, stored_seq, persisted_seq; cbn.
  destruct (counters d !! COUNTER_ID) as [[[v|]]|]; reflexivity.
Qed.

Lemma NoDup_fmap_seq_add (a : Z) (n : nat) :
  NoDup ((λ k, a + Z.of_nat k) <$> List.seq 1 n).
Proof.
  apply NoDup_fmap_2; [|apply NoDup_seq].
  intros x y Hxy. lia.
Qed.

(** X1. On a configured database whose counter stands at [s] (0 when the
    counter document or its [seq] field is missing), [n] calls of
    [_get_next_receipt_number] return [s + 1], ..., [s + n]: no call raises,
    the numbers are pairwise distinct, and the counter ends at [s + n]. *)
Theorem allocator_counts_from_stored (d : Database) (n : nat) :
  (call_n _get_next_receipt_number n (Some d)).1 =
    (λ k, Return (stored_seq d + Z.of_nat k)) <$> List.seq 1 n
  ∧ NoDup ((λ k, stored_seq d + Z.of_nat k) <$> List.seq 1 n)
  ∧ persisted_seq (call_n _get_next_receipt_number (S n) (Some d)).2 =
      Some (stored_seq d + Z.of_nat (S n)).
Proof.
  split; [|split].
  - rewrite call_n_get_next_receipt_number, next_seq_stored.
    rewrite <- fmap_S_seq, <- list_fmap_compose.
    apply list_fmap_ext. intros _ k _. cbn. f_equal. lia.
  - apply NoDup_fmap_seq_add.
  - rewrite call_n_get_next_receipt_number_seq, next_seq_stored. f_equal. lia.
Qed.

(** X2. One allocation on a configured database returns exactly the value
    it leaves in the counter, and touches nothing else: the receipts, the
    supply of identifiers and every other counter document are as before. *)
Theorem allocator_frame (d : Database) :
  ∃ v d',
    _get_next_receipt_number (Some d) = (Return v, Some d')
    ∧ persisted_seq (Some d') = Some v
    ∧ v = stored_seq d + 1
    ∧ receipt d' = receipt d
    ∧ next_oid d' = next_oid d
    ∧ ∀ id, id ≠ COUNTER_ID → counters d' !! id = counters d !! id.
Proof.
  exists (next_seq d), (bump d). rewrite get_next_receipt_number_eq.
  split; [reflexivity|]. split; [apply persisted_seq_bump|].
  split; [apply next_seq_stored|]. split; [reflexivity|]. split; [reflexivity|].
  intros id Hid. unfold bump; cbn. by rewrite lookup_insert_ne.
Qed.

(** ** Numbers of created receipts *)

Lemma persisted_seq_inserted d doc :
  persisted_seq (Some (inserted d doc)) = Some (next_seq d).
Proof. apply persisted_seq_bump. Qed.

Lemma next_seq_persisted d v : persisted_seq (Some d) = Some v → next_seq d = v + 1.
Proof. intros H. rewrite next_seq_stored. unfold stored_seq. by rewrite H. Qed.

(** X3. Receipt numbers grow with creation order: the receipt a
    [create_receipt] returns is numbered one above the counter, a second
    creation right after it gets the next number, and a creation after any
    requests in between gets a greater one. *)
Theorem created_numbers_increase (now1 now2 : datetime) (p1 p2 : ReceiptCreate.t)
    (d : Database) (r1 r2 : ReceiptOut.t) (s1 s3 : State) (rqs : list Request) :
  create_receipt now1 p1 (Some d) = (Return r1, s1) →
  create_receipt now2 p2 (serve_all rqs s1).2 = (Return r2, s3) →
  ReceiptOut.number r1 = stored_seq d + 1
  ∧ ReceiptOut.number r1 < ReceiptOut.number r2
  ∧ (rqs = [] → ReceiptOut.number r2 = ReceiptOut.number r1 + 1).
Proof.
  intros H1 H2.
  apply create_receipt_Return in H1 as (d0 & sub1 & [= <-] & _ & _ & -> & ->).
  apply create_receipt_Return in H2 as (d2 & sub2 & Hs2 & _ & _ & -> & _).
  cbn [to_out new_doc ReceiptOut.number Doc.number].
  split; [apply next_seq_stored|].
  pose proof (serve_all_seq_le rqs (Some (inserted d (stored_doc d now1 p1 sub1)))) as Hle.
  rewrite Hs2, persisted_seq_inserted in Hle. cbn [seq_le] in Hle.
  destruct (persisted_seq (Some d2)) as [v|] eqn:Hv; [|done].
  rewrite (next_seq_persisted _ _ Hv). split; [lia|].
  intros ->. cbn in Hs2. injection Hs2 as <-.
  rewrite persisted_seq_inserted in Hv. injection Hv as <-. reflexivity.
Qed.

Lemma created_numbers_increase_witness :
  ∃ r1 s1 r2 s3,
    create_receipt 8 demo_payload (Some demo_db) = (Return r1, s1)
    ∧ create_receipt 9 demo_payload (serve_all [GET_receipts_latest] s1).2 = (Return r2, s3)
    ∧ ReceiptOut.number r1 < ReceiptOut.number r2.
Proof.
  destruct (create_receipt 8 demo_payload (Some demo_db)) as [[r1|e] s1] eqn:H1;
    [|vm_compute in H1; discriminate].
  destruct (create_receipt 9 demo_payload (serve_all [GET_receipts_latest] s1).2)
    as [[r2|e] s3] eqn:H2.
  - exists r1, s1, r2, s3. split; [reflexivity|]. split; [exact H2|].
    exact (proj1 (proj2 (created_numbers_increase 8 9 demo_payload demo_payload demo_db
                           r1 r2 s1 s3 [GET_receipts_latest] H1 H2))).
  - vm_compute in H1. injection H1 as _ <-. vm_compute in H2. discriminate.
Defined.

(** ** Failure after the allocation *)

Lemma line_Raise i e : line i = Raise e → e = OverflowError ∧ ¬ convertible i.
Proof.
  unfold line, py_mul, py_float, int_to_float, convertible.
  destruct (PrimFloat.is_infinity _); cbn [mbind Outcome_bind]; [|discriminate].
  intros [= <-]. split; [reflexivity | discriminate].
Qed.

Lemma line_cases i :
  (convertible i ∧ line i = Return (PyFloat (line_total i)))
  ∨ (¬ convertible i ∧ line i = Raise OverflowError).
Proof.
  destruct (line i) as [v|e] eqn:Hl.
  - left. apply line_Return in Hl as [-> Hc]. auto.
  - right. apply line_Raise in Hl as [-> Hc]. auto.
Qed.

Lemma py_sum_float_not_convertible items : ∀ acc,
  ¬ Forall convertible items →
  py_sum (line <$> items) (PyFloat acc) = Raise OverflowError.
Proof.
  induction items as [|i items IH]; intros acc Hn; [destruct Hn; constructor|].
  rewrite fmap_cons, py_sum_cons.
  destruct (line_cases i) as [[Hc ->]|[Hc ->]]; [|reflexivity].
  rewrite Outcome_bind_Return, py_add_float, Outcome_bind_Return.
  apply IH. intros HF. apply Hn. by constructor.
Qed.

Lemma compute_totals_not_convertible items :
  ¬ Forall convertible items → _compute_totals items = Raise OverflowError.
Proof.
  unfold _compute_totals. fold line. intros Hn.
  destruct items as [|i items]; [destruct Hn; constructor|].
  rewrite fmap_cons, py_sum_cons.
  destruct (line_cases i) as [[Hc ->]|[Hc ->]]; [|reflexivity].
  rewrite Outcome_bind_Return, py_add_start, Outcome_bind_Return.
  rewrite py_sum_float_not_convertible; [reflexivity|].
  intros HF. apply Hn. by constructor.
Qed.

(** X4. When some quantity of the payload is too large for a double,
    [create_receipt] raises [OverflowError] after it has allocated a number:
    the counter has moved up by one and no document was inserted. *)
Theorem create_receipt_overflow_burns_number (now : datetime) (payload : ReceiptCreate.t)
    (d : Database) :
  ¬ Forall convertible (ReceiptCreate.items payload) →
  ∃ d',
    create_receipt now payload (Some d) = (Raise OverflowError, Some d')
    ∧ persisted_seq (Some d') = Some (stored_seq d + 1)
    ∧ receipt d' = receipt d.
Proof.
  intros Hn. exists (bump d).
  rewrite create_receipt_eq, (compute_totals_not_convertible _ Hn).
  split; [reflexivity|]. split; [|done].
  by rewrite persisted_seq_bump, next_seq_stored.
Qed.

Lemma create_receipt_overflow_burns_number_witness :
  ∃ d',
    create_receipt 9 huge_payload (Some demo_db) = (Raise OverflowError, Some d')
    ∧ persisted_seq (Some d') = Some (stored_seq demo_db + 1)
    ∧ receipt d' = receipt demo_db.
Proof.
  apply (create_receipt_overflow_burns_number 9 huge_payload demo_db).
  intros HF. inversion HF as [|? ? _ HF']. inversion HF' as [|? ? Hc _].
  vm_compute in Hc. discriminate.
Defined.

(** ** Point lookup *)

Lemma filter_number_unique (l : list Doc.t) (doc : Doc.t) :
  NoDup (Doc.number <$> l) → doc ∈ l →
  filter (λ x, Doc.number x = Doc.number doc) l = [doc].
Proof.
  induction l as [|y l IH]; intros Hnd Hin; [by apply elem_of_nil in Hin|].
  rewrite fmap_cons in Hnd. apply NoDup_cons in Hnd as [Hy Hnd].
  apply elem_of_cons in Hin as [->|Hin].
  - rewrite filter_cons_True by reflexivity. f_equal.
    apply filter_none. apply Forall_forall. intros x Hx Heq.
    apply Hy. rewrite <- Heq. by apply list_elem_of_fmap_2.
  - rewrite filter_cons_False; [by apply IH|].
    intros Heq. apply Hy. rewrite Heq. by apply list_elem_of_fmap_2.
Qed.

(** X7. [get_receipt_by_number] on a number that no persisted document
    carries raises the 404 exception "Receipt not found" and leaves the
    store as it is. *)
Theorem get_by_number_missing (d : Database) (n : Z) :
  n ∉ Doc.number <$> receipt d →
  get_receipt_by_number n (Some d) = (Raise (HTTPException 404 "Receipt not found"), Some d)
  ∧ status_code_of (HTTPException 404 "Receipt not found") = 404.
Proof.
  intros Hn. rewrite get_receipt_by_number_eq.
  rewrite filter_none; [done|].
  apply Forall_forall. intros x Hx Heq. apply Hn. rewrite <- Heq.
  by apply list_elem_of_fmap_2.
Qed.

Lemma get_by_number_missing_witness :
  get_receipt_by_number 9 (Some demo_db)
    = (Raise (HTTPException 404 "Receipt not found"), Some demo_db).
Proof.
  refine (proj1 (get_by_number_missing demo_db 9 _)).
  intros Hin. vm_compute in Hin.
  repeat (apply elem_of_cons in Hin as [Hin|Hin]; [discriminate|]).
  by apply elem_of_nil in Hin.
Defined.

(** X8. On a consistent store every persisted receipt is found under its
    number: [get_receipt_by_number] of the number of a stored document
    returns that document's nine fields, and the store is unchanged. *)
Theorem get_by_number_finds (d : Database) (doc : Doc.t) :
  consistent d →
  doc ∈ receipt d →
  get_receipt_by_number (Doc.number doc) (Some d) = (Return (to_out doc), Some d).
Proof.
  intros [_ Hnd Hv] Hin. rewrite get_receipt_by_number_eq.
  rewrite (filter_number_unique _ _ Hnd Hin). cbn [head].
  rewrite Forall_forall in Hv. by rewrite (ReceiptOut_of_doc_valid _ (Hv doc Hin)).
Qed.

Lemma get_by_number_finds_witness :
  ∃ doc, receipt demo_db !! 1%nat = Some doc
    ∧ get_receipt_by_number 2 (Some demo_db) = (Return (to_out doc), Some demo_db).
Proof.
  destruct (receipt demo_db !! 1%nat) as [doc|] eqn:Hd; [|vm_compute in Hd; discriminate].
  exists doc. split; [reflexivity|].
  assert (Doc.number doc = 2) as Hn by (vm_compute in Hd; by injection Hd as <-).
  rewrite <- Hn. apply (get_by_number_finds demo_db doc).
  - split.
    + repeat constructor.
    + apply (bool_decide_unpack _). vm_compute. exact I.
    + repeat constructor.
  - by apply list_elem_of_lookup_2 in Hd.
Defined.

(** ** The latest receipt and the listing *)

Lemma head_sort_number_desc_is_Some l : l ≠ [] → is_Some (head (sort_number_desc l)).
Proof.
  intros Hne. destruct (head (sort_number_desc l)) as [x|] eqn:Hh; [by eexists|].
  by apply head_sort_number_desc_None in Hh.
Qed.

(** X9. On a consistent store, the receipt [create_receipt] has just
    returned is the one [get_latest_receipt] returns next, as it reads back
    from the store: equal in every field but [created_at] and [updated_at],
    which are cut down to whole milliseconds (and so equal too when the
    clock reading is a whole number of milliseconds). *)
Theorem get_latest_after_create (now : datetime) (payload : ReceiptCreate.t)
    (d : Database) (r : ReceiptOut.t) (s' : State) :
  consistent d →
  create_receipt now payload (Some d) = (Return r, s') →
  get_latest_receipt s' = (Return (as_stored r), s')
  ∧ (now mod 1000 = 0 → as_stored r = r).
Proof.
  intros [Hi _ _] Hc.
  apply create_receipt_Return in Hc as (d0 & subtotal & [= <-] & _ & Hv & -> & ->).
  split.
  - rewrite get_latest_receipt_eq. cbn [receipt inserted].
    set (doc := stored_doc d now payload subtotal) in *.
    destruct (head_sort_number_desc_is_Some (receipt d ++ [doc])) as [x Hx];
      [by destruct (receipt d)|].
    rewrite Hx. apply head_sort_number_desc in Hx as [Hin Hmax].
    assert (x = doc) as ->; [|by rewrite (ReceiptOut_of_doc_valid doc Hv)].
    apply elem_of_app in Hin as [Hin|Hin]; [|by apply list_elem_of_singleton in Hin].
    rewrite Forall_forall in Hi. specialize (Hi x Hin). cbn in Hi.
    assert (doc ∈ receipt d ++ [doc]) as Hd by (apply elem_of_app; right; left).
    specialize (Hmax doc Hd). unfold doc in Hmax at 1. cbn in Hmax. lia.
  - intros Hms. unfold as_stored, to_out; cbn.
    rewrite (bson_datetime_whole _ Hms). reflexivity.
Qed.

Lemma get_latest_after_create_witness :
  ∃ r s', create_receipt 8 demo_payload (Some demo_db) = (Return r, s')
    ∧ get_latest_receipt s' = (Return (as_stored r), s').
Proof.
  destruct (create_receipt 8 demo_payload (Some demo_db)) as [[r|e] s'] eqn:Hc;
    [|vm_compute in Hc; discriminate].
  exists r, s'. split; [reflexivity|].
  refine (proj1 (get_latest_after_create 8 demo_payload demo_db r s' _ Hc)).
  split.
  - repeat constructor.
  - apply (bool_decide_unpack _). vm_compute. exact I.
  - repeat constructor.
Defined.

Lemma cursor_limit_head {A} (n : Z) (l : list A) : n ≠ 0 → head (cursor_limit n l) = head l.
Proof.
  intros Hn. unfold cursor_limit. destruct (decide (n = 0)); [done|].
  destruct (Z.to_nat (Z.abs n)) eqn:Hk; [lia|]. by destruct l.
Qed.

(** X10. The listing starts with the latest receipt: on a consistent
    store (no number stored twice, so that the order by number leaves no
    choice), for a positive limit, [list_receipts] returns the empty list
    exactly when [get_latest_receipt] raises its 404, and otherwise a list
    whose first element is the receipt [get_latest_receipt] returns. *)
Theorem list_starts_with_latest (d : Database) (limit : Z) :
  consistent d →
  0 < limit →
  ∃ l, list_receipts limit (Some d) = (Return l, Some d)
    ∧ (get_latest_receipt (Some d)).1 =
        match head l with
        | Some r => Return r
        | None => Raise (HTTPException 404 "No receipts found")
        end.
Proof.
  intros [_ _ Hv] Hpos.
  set (cur := cursor_limit limit (sort_number_desc (receipt d))).
  assert (Forall Doc_valid cur) as Hvc.
  { unfold cur, cursor_limit. destruct (decide (limit = 0)); [lia|].
    apply Forall_take. by rewrite (sort_number_desc_perm (receipt d)). }
  exists (to_out <$> cur). split.
  - rewrite list_receipts_eq. fold cur. by rewrite (mapM_ReceiptOut_of_doc _ Hvc).
  - rewrite get_latest_receipt_eq. cbn [fst].
    assert (head cur = head (sort_number_desc (receipt d))) as Hh
      by (apply cursor_limit_head; lia).
    rewrite <- Hh. destruct cur as [|x cur']; [reflexivity|]. cbn [head fmap list_fmap].
    apply ReceiptOut_of_doc_valid. by inversion Hvc.
Qed.

Lemma list_starts_with_latest_witness :
  ∃ l, list_receipts 2 (Some demo_db) = (Return l, Some demo_db)
    ∧ (get_latest_receipt (Some demo_db)).1 =
        match head l with
        | Some r => Return r
        | None => Raise (HTTPException 404 "No receipts found")
        end.
Proof.
  apply (list_starts_with_latest demo_db 2); [|lia].
  split.
  - repeat constructor.
  - apply (bool_decide_unpack _). vm_compute. exact I.
  - repeat constructor.
Defined.

(** X11. The handler passes the limit on unchecked, and the cursor takes 0
    as "no limit": on a store whose documents read back as receipts,
    [list_receipts 0] returns every persisted receipt, each once, by
    descending number. *)
Theorem list_receipts_zero_lists_all (d : Database) :
  Forall Doc_valid (receipt d) →
  ∃ l, list_receipts 0 (Some d) = (Return l, Some d)
    ∧ l ≡ₚ to_out <$> receipt d
    ∧ length l = length (receipt d)
    ∧ StronglySorted (λ a b, ReceiptOut.number b ≤ ReceiptOut.number a) l.
Proof.
  intros Hv. exists (to_out <$> sort_number_desc (receipt d)).
  split; [|split; [|split]].
  - rewrite list_receipts_eq. unfold cursor_limit. cbn [decide].
    rewrite decide_True by reflexivity.
    rewrite mapM_ReceiptOut_of_doc; [reflexivity|].
    by rewrite (sort_number_desc_perm (receipt d)).
  - by rewrite (sort_number_desc_perm (receipt d)).
  - by rewrite length_fmap, sort_number_desc_length.
  - apply (StronglySorted_fmap to_out number_desc); [intros x y Hxy; exact Hxy|].
    apply sort_number_desc_sorted.
Qed.

Lemma list_receipts_zero_lists_all_witness :
  ∃ l, list_receipts 0 (Some demo_db) = (Return l, Some demo_db)
    ∧ l ≡ₚ to_out <$> receipt demo_db
    ∧ length l = length (receipt demo_db)
    ∧ StronglySorted (λ a b, ReceiptOut.number b ≤ ReceiptOut.number a) l.
Proof. apply (list_receipts_zero_lists_all demo_db). repeat constructor. Defined.

(** ** What the routes change *)

Lemma serve_read_state rq s : is_read rq → (serve rq s).2 = s.
Proof.
  intros Hr. destruct s as [d|]; [|apply serve_None].
  destruct rq as [now body| |n|limit]; [done| | |]; cbn [serve]; rewrite fmap_run.
  - rewrite get_latest_receipt_eq.
    destruct (match head _ with Some doc => _ | None => _ end); reflexivity.
  - rewrite get_receipt_by_number_eq.
    destruct (match head _ with Some doc => _ | None => _ end); reflexivity.
  - rewrite list_receipts_eq. destruct (mapM _ _); reflexivity.
Qed.

(** X12. The three reading routes never change anything: after any list
    of GET requests, answered or refused, the value of [db] (counter,
    receipts and all) is exactly what it was. *)
Theorem reads_change_nothing (rqs : list Request) (s : State) :
  Forall is_read rqs → (serve_all rqs s).2 = s.
Proof.
  intros HF. revert s. induction HF as [|rq rqs Hr _ IH]; intros s; [reflexivity|].
  cbn [serve_all]. pose proof (serve_read_state rq s Hr) as Hs.
  destruct (serve rq s) as [o s1]. cbn in Hs. subst s1.
  specialize (IH s). destruct (serve_all rqs s) as [os s']. exact IH.
Qed.

Lemma reads_change_nothing_witness :
  (serve_all [GET_receipts_latest; GET_receipts_number 9; GET_receipts (Some 2);
              GET_receipts None] (Some demo_db)).2 = Some demo_db.
Proof. apply reads_change_nothing. repeat constructor. Defined.

(** ** The store the service builds, overlaps included *)

Lemma create_receipt_split now payload d :
  create_receipt now payload (Some d) =
  (number ← _get_next_receipt_number; create_receipt_from number now payload) (Some d).
Proof. reflexivity. Qed.

Lemma create_receipt_from_eq n now payload d :
  create_receipt_from n now payload (Some d) =
  match _compute_totals (ReceiptCreate.items payload) with
  | Raise e => (Raise e, Some d)
  | Return subtotal =>
      let doc :=
        Doc.mk (Some (next_oid d)) n BRAND (ReceiptCreate.customer_name payload)
          (ReceiptCreate.items payload) (ReceiptCreate.notes payload)
          subtotal subtotal now now in
      (ReceiptOut_of_doc doc,
       Some (mk_database (counters d) (receipt d ++ [bson_doc doc]) (S (next_oid d))))
  end.
Proof.
  unfold create_receipt_from. rewrite or_empty_id, bind_run. unfold lift at 1.
  destruct (_compute_totals (ReceiptCreate.items payload)) as [subtotal|e]; [|reflexivity].
  rewrite bind_run. reflexivity.
Qed.

Lemma Permutation_held (l h1 h2 : list Z) (n : Z) :
  l ++ h1 ++ n :: h2 ≡ₚ n :: l ++ h1 ++ h2.
Proof. by rewrite <- (Permutation_middle h1 h2 n), <- Permutation_middle. Qed.

Lemma system_inv_empty : system_inv (empty_database, []).
Proof. split; cbn; [done | constructor | constructor | constructor]. Qed.

Lemma system_inv_allocate d held :
  system_inv (d, held) → system_inv (bump d, next_seq d :: held).
Proof.
  intros [Hs Hd Hr Hv]. unfold numbers_in_use in *. cbn [fst snd] in *.
  split; unfold numbers_in_use; cbn [fst snd]; rewrite ?receipt_bump, ?next_seq_bump.
  - lia.
  - rewrite <- Permutation_middle. apply NoDup_cons. split; [|exact Hd].
    intros Hin. rewrite Forall_forall in Hr. specialize (Hr _ Hin). cbn in Hr. lia.
  - rewrite <- Permutation_middle. constructor; [lia|].
    eapply Forall_impl; [exact Hr|]. cbn. intros; lia.
  - exact Hv.
Qed.

Lemma system_inv_insert d doc held1 held2 oid :
  Doc_valid doc →
  system_inv (d, held1 ++ Doc.number doc :: held2) →
  system_inv (mk_database (counters d) (receipt d ++ [doc]) oid, held1 ++ held2).
Proof.
  intros Hdoc [Hs Hd Hr Hv]. unfold numbers_in_use in *. cbn [fst snd] in *.
  assert (next_seq (mk_database (counters d) (receipt d ++ [doc]) oid) = next_seq d)
    as Hnext by reflexivity.
  assert (((Doc.number <$> receipt d ++ [doc]) ++ held1 ++ held2)
          ≡ₚ (Doc.number <$> receipt d) ++ held1 ++ Doc.number doc :: held2) as Hp.
  { rewrite fmap_app, Permutation_held. cbn. rewrite <- app_assoc. cbn.
    by rewrite <- Permutation_middle. }
  split; unfold numbers_in_use; cbn [fst snd receipt]; rewrite ?Hnext.
  - exact Hs.
  - by rewrite Hp.
  - by rewrite Hp.
  - apply Forall_app. split; [exact Hv | by repeat constructor].
Qed.

Lemma system_inv_drop d n held1 held2 :
  system_inv (d, held1 ++ n :: held2) → system_inv (d, held1 ++ held2).
Proof.
  intros [Hs Hd Hr Hv]. unfold numbers_in_use in *. cbn [fst snd] in *.
  rewrite Permutation_held in Hd, Hr.
  split; unfold numbers_in_use; cbn [fst snd]; [exact Hs | | | exact Hv].
  - by apply NoDup_cons in Hd as [_ ?].
  - by apply Forall_cons in Hr as [_ ?].
Qed.

Lemma system_inv_db_step d d' held :
  db_step d d' → system_inv (d, held) → system_inv (d', held).
Proof.
  intros Hstep Hinv. destruct Hstep as [| |doc Hn Hdoc]; [exact Hinv | |].
  - apply (system_inv_drop _ (next_seq d) [] held). cbn [app].
    by apply system_inv_allocate.
  - pose proof (system_inv_allocate _ _ Hinv) as Ha. rewrite <- Hn in Ha.
    apply (system_inv_insert (bump d) doc [] held (S (next_oid d)) Hdoc Ha).
Qed.

Lemma system_step_inv st st' : system_step st st' → system_inv st → system_inv st'.
Proof.
  intros Hstep Hinv. destruct Hstep as [d d' n held Ha|d d' n now body payload o h1 h2 Hp Hf
                                       |d d' rq o held Hs].
  - rewrite get_next_receipt_number_eq in Ha. injection Ha as <- <-.
    by apply system_inv_allocate.
  - rewrite create_receipt_from_eq in Hf.
    destruct (_compute_totals _) as [subtotal|e].
    + cbn zeta in Hf. injection Hf as _ <-.
      set (doc := Doc.mk _ n _ _ _ _ _ _ _ _).
      apply (system_inv_insert d (bson_doc doc) h1 h2 _); [|exact Hinv].
      apply (parse_ReceiptCreate_valid _ _ Hp).
    + injection Hf as _ <-. by apply system_inv_drop in Hinv.
  - destruct (serve_step rq d) as (d1 & Hd1 & Hstep). rewrite Hs in Hd1.
    cbn in Hd1. injection Hd1 as <-. by apply (system_inv_db_step d).
Qed.

Lemma system_reachable_inv st : system_reachable st → system_inv st.
Proof.
  unfold system_reachable. revert st.
  apply (rtc_ind_r system_inv); [apply system_inv_empty|].
  intros y z _ Hstep IH. by apply (system_step_inv y).
Qed.

(** The stores built by requests served one after the other are among them. *)
Lemma serve_all_system_steps rqs : ∀ d d',
  (serve_all rqs (Some d)).2 = Some d' → rtc system_step (d, []) (d', []).
Proof.
  induction rqs as [|rq rqs IH]; intros d d' Hr.
  - cbn in Hr. injection Hr as <-. apply rtc_refl.
  - cbn [serve_all] in Hr. destruct (serve_step rq d) as (d1 & Hd1 & _).
    destruct (serve rq (Some d)) as [o s1] eqn:Hs. cbn in Hd1. subst s1.
    destruct (serve_all rqs (Some d1)) as [os s'] eqn:Hall. cbn in Hr. subst s'.
    eapply rtc_l; [eapply step_serve; exact Hs|].
    apply IH. by rewrite Hall.
Qed.

Lemma reachable_system_reachable d : reachable d → system_reachable (d, []).
Proof. intros [rqs Hr]. by apply (serve_all_system_steps rqs). Qed.

Lemma NoDup_range_length (l : list Z) (hi : Z) :
  NoDup l → Forall (λ n, 1 ≤ n < hi) l → Z.of_nat (length l) ≤ Z.max 0 (hi - 1).
Proof.
  intros Hnd Hr.
  assert (l ⊆+ seqZ 1 (hi - 1)) as Hsub.
  { apply NoDup_submseteq; [exact Hnd|]. intros x Hx.
    rewrite Forall_forall in Hr. specialize (Hr x Hx). cbn in Hr.
    apply elem_of_seqZ. lia. }
  apply submseteq_length in Hsub. rewrite length_seqZ in Hsub. lia.
Qed.

(** X14. In every database the service can build from the empty one, also
    when creations overlap and their allocations and insertions interleave,
    no number is stored twice, every stored number lies between 1 and the
    counter, there are no more receipts than the counter counts, and every
    document reads back as a receipt; so the store is consistent.  The
    stores built by requests served one after the other are among these.
    (The insertion order need not follow the numbers.) *)
Theorem system_store_numbering (d : Database) (held : list Z) :
  system_reachable (d, held) →
  NoDup (Doc.number <$> receipt d)
  ∧ Forall (λ doc, 1 ≤ Doc.number doc ≤ stored_seq d) (receipt d)
  ∧ Z.of_nat (length (receipt d)) ≤ stored_seq d
  ∧ Forall Doc_valid (receipt d)
  ∧ consistent d
  ∧ ∀ d0, reachable d0 → system_reachable (d0, []).
Proof.
  intros Hr. apply system_reachable_inv in Hr as [Hs Hd Hrange Hv].
  unfold numbers_in_use in *. cbn [fst snd] in *.
  apply NoDup_app in Hd as (Hd & _ & _). apply Forall_app in Hrange as [Hrange _].
  assert (Forall (λ doc, 1 ≤ Doc.number doc < next_seq d) (receipt d)) as Hdocs
    by (by rewrite Forall_fmap in Hrange).
  split; [exact Hd|]. split; [|split; [|split; [exact Hv|split]]].
  - rewrite next_seq_stored in Hdocs. eapply Forall_impl; [exact Hdocs|]. cbn. intros; lia.
  - pose proof (NoDup_range_length _ _ Hd Hrange) as Hl.
    rewrite length_fmap, next_seq_stored in Hl. rewrite next_seq_stored in Hs. lia.
  - split; [|exact Hd|exact Hv]. eapply Forall_impl; [exact Hdocs|]. cbn. intros; lia.
  - apply reachable_system_reachable.
Qed.

(** Two creations that overlap: both allocate, the second inserts first. *)
Lemma system_store_numbering_witness :
  ∃ d, Doc.number <$> receipt d = [2; 1]
    ∧ NoDup (Doc.number <$> receipt d)
    ∧ Forall (λ doc, 1 ≤ Doc.number doc ≤ stored_seq d) (receipt d).
Proof.
  eassert (system_reachable (_, [])) as Hr.
  { unfold system_reachable.
    eapply rtc_l; [eapply (step_allocate empty_database); vm_compute; reflexivity|].
    eapply rtc_l; [eapply step_allocate; vm_compute; reflexivity|].
    eapply rtc_l;
      [eapply (step_finish _ _ 2 6 (demo_body []) _ _ [] [1]);
       [reflexivity | vm_compute; reflexivity]|].
    eapply rtc_l;
      [eapply (step_finish _ _ 1 7 (demo_body []) _ _ [] []);
       [reflexivity | vm_compute; reflexivity]|].
    apply rtc_refl. }
  eexists. split; [|split; [exact (proj1 (system_store_numbering _ _ Hr))
                           |exact (proj1 (proj2 (system_store_numbering _ _ Hr)))]].
  vm_compute. reflexivity.
Defined.

(** ** The diagnostic route *)

(** X16. [test_database] reports "Connected" exactly when [db] is set and
    the listing of the collections succeeded, and "Not Connected"
    otherwise; it then shows the first ten collection names at most, and
    none in every other case.  The backend line is always the same. *)
Theorem test_database_connection (environ : gmap string str) (listing : Listing) (db : State) :
  let r := test_database environ listing db in
  (Diagnostics.connection_status r = lit "Connected"
     ↔ is_Some db ∧ ∃ names, listing = Listed names)
  ∧ (Diagnostics.connection_status r = lit "Connected"
     ∨ Diagnostics.connection_status r = lit "Not Connected")
  ∧ Diagnostics.collections r =
      match db, listing with
      | Some _, Listed names => take 10 names
      | _, _ => []
      end
  ∧ (length (Diagnostics.collections r) ≤ 10)%nat
  ∧ Diagnostics.backend r = CHECK_MARK ++ lit " Running".
Proof.
  destruct db as [d|], listing as [names|e]; cbn.
  - split; [|split; [by left|]].
    + split; [|done]. intros _. split; [by eexists | by eexists].
    + split; [reflexivity|]. split; [|reflexivity]. rewrite length_take. lia.
  - split; [|split; [by right|]].
    + split; [discriminate|]. by intros [_ [names [=]]].
    + split; [reflexivity|]. split; [|reflexivity]. cbn. lia.
  - split; [|split; [by right|]].
    + split; [discriminate|]. by intros [[x [=]] _].
    + split; [reflexivity|]. split; [|reflexivity]. cbn. lia.
  - split; [|split; [by right|]].
    + split; [discriminate|]. by intros [[x [=]] _].
    + split; [reflexivity|]. split; [|reflexivity]. cbn. lia.
Qed.

(** X17. The database line of [test_database] is one of three messages:
    "Available but not initialized" when [db] is unset, "Connected &
    Working" when the listing succeeded, and, when the listing raised,
    "Connected but Error: " followed by the first 50 characters of the
    exception's message (the failure is reported, not raised).  It never
    starts with the cross mark of the initial "Not Available" and of the
    outer "Error: " line, and is never longer than 75 characters. *)
Theorem test_database_message (environ : gmap string str) (listing : Listing) (db : State) :
  let r := test_database environ listing db in
  Diagnostics.database r =
    match db, listing with
    | None, _ => WARNING_SIGN ++ lit "  Available but not initialized"
    | Some _, Listed _ => CHECK_MARK ++ lit " Connected & Working"
    | Some _, ListingError e => WARNING_SIGN ++ lit "  Connected but Error: " ++ take 50 e
    end
  ∧ head (Diagnostics.database r) ≠ head CROSS_MARK
  ∧ (length (Diagnostics.database r) ≤ 75)%nat.
Proof.
  destruct db as [d|], listing as [names|e]; cbn;
    (split; [reflexivity|]); (split; [discriminate|]); try lia.
  rewrite length_take. lia.
Qed.

(** X18. [test_database] reports on the two environment variables only
    when [db] is set: each flag is then "Set" exactly when the variable has
    a value that is not the empty string, and "Not Set" otherwise; with [db]
    unset both flags stay [None], whatever the environment holds. *)
Theorem test_database_environment (environ : gmap string str) (listing : Listing)
    (db : State) :
  let r := test_database environ listing db in
  let flag name :=
    match db with
    | Some _ =>
        Some (match environ !! name with
              | Some (_ :: _) => CHECK_MARK ++ lit " Set"
              | _ => CROSS_MARK ++ lit " Not Set"
              end)
    | None => None
    end in
  Diagnostics.database_url r = flag "DATABASE_URL"
  ∧ Diagnostics.database_name r = flag "DATABASE_NAME".
Proof.
  destruct db as [d|], listing as [names|e]; cbn; unfold set_or_not, getenv_truthy;
    (split; [|]); try reflexivity;
    repeat match goal with |- context [environ !! ?n] => destruct (environ !! n) as [[|??]|] end;
    reflexivity.
Qed.
